(** * job_pipeline: feature derivation and normalisation

    A shallow embedding of the pure part of [src/job_pipeline.py]
    ([clean_text], [extract_skills], [categorize_role], [classify_region],
    [parse_salary_to_yearly_usd], [clean_posts]) and the properties the
    specification states about it; and of the part that talks to the
    network ([polite_get], [scrape_remoteok], [scrape_remotive],
    [collect_posts]), where the replies of the network, the JSON decoder,
    the HTML parser and the clock are given from outside.

    Conventions of the embedding.
    - Python [str] values are [string]s, a character being its code
      point; the model covers text made of code points below 256, with
      the classes [\s], [\d], [\w] and the mapping [str.lower] that
      Python has on these characters.
    - Python [float] values are IEEE 754 binary64 numbers, [spec_float]
      with [prec = 53] and [emax = 1024]; arithmetic and comparisons are
      the ones of [SpecFloat].
    - [None] / [NaN] cells are [option] values. *)

From Stdlib Require Import Bool List ZArith NArith Lia Ascii String DecimalString.
From Stdlib Require Import Floats.SpecFloat.
Import ListNotations.

Open Scope list_scope.
Open Scope string_scope.

(** ** Text *)

Module Text.

(** Character classes of [re] and [str] on text of code points below 256;
    a character is its code point.  [\s], which is also the whitespace of
    [str.strip], is [ \t\n\r\f\v], the separators 0x1c-0x1f, U+0085
    and U+00A0; [\d] is [0-9]; [\w] is the alphanumeric characters
    (letters, decimal digits and the other numeric characters) and [_]. *)
Definition code (c : ascii) : N := N_of_ascii c.

Definition between (lo hi : N) (c : ascii) : bool :=
  (lo <=? code c)%N && (code c <=? hi)%N.

Definition is_space (c : ascii) : bool :=
  between 9 13 c || between 28 32 c || (code c =? 133)%N || (code c =? 160)%N.
Definition is_digit (c : ascii) : bool := between 48 57 c.
Definition is_upper (c : ascii) : bool :=
  between 65 90 c || between 192 214 c || between 216 222 c.
Definition is_lower (c : ascii) : bool :=
  between 97 122 c || (code c =? 181)%N || between 223 246 c || between 248 255 c.
(** The letters without case (the ordinal indicators) and the numeric
    characters that are no decimal digits (superscripts and fractions). *)
Definition is_other_letter (c : ascii) : bool := (code c =? 170)%N || (code c =? 186)%N.
Definition is_other_number (c : ascii) : bool :=
  between 178 179 c || (code c =? 185)%N || between 188 190 c.
Definition is_word (c : ascii) : bool :=
  is_digit c || is_upper c || is_lower c || (code c =? 95)%N ||
  is_other_letter c || is_other_number c.

(** [str.lower]: an upper-case letter is 32 code points below its
    lower-case letter. *)
Definition lower_char (c : ascii) : ascii :=
  if is_upper c then ascii_of_N (code c + 32) else c.

Fixpoint lower (s : string) : string :=
  match s with
  | EmptyString => EmptyString
  | String c r => String (lower_char c) (lower r)
  end.

(** [hay] begins with [needle]. *)
Fixpoint starts_with (needle hay : string) : bool :=
  match needle with
  | EmptyString => true
  | String a needle' =>
      match hay with
      | EmptyString => false
      | String b hay' => Ascii.eqb a b && starts_with needle' hay'
      end
  end.

(** [needle in hay]: [hay] has [needle] at some position. *)
Fixpoint contains (needle hay : string) : bool :=
  starts_with needle hay ||
  match hay with
  | EmptyString => false
  | String _ r => contains needle r
  end.

(** [s.replace(c, "")] for a one-character [c]. *)
Fixpoint remove_char (c : ascii) (s : string) : string :=
  match s with
  | EmptyString => EmptyString
  | String d r => if Ascii.eqb d c then remove_char c r else String d (remove_char c r)
  end.

(** [re.sub(r"\s+", " ", s)]: every maximal run of whitespace becomes one
    space.  [in_run] tells that the previous character was whitespace. *)
Fixpoint collapse_ws (in_run : bool) (s : string) : string :=
  match s with
  | EmptyString => EmptyString
  | String c r =>
      if is_space c
      then if in_run then collapse_ws true r else String " " (collapse_ws true r)
      else String c (collapse_ws false r)
  end.

Fixpoint lstrip (s : string) : string :=
  match s with
  | EmptyString => EmptyString
  | String c r => if is_space c then lstrip r else s
  end.

(** Every character of [s] satisfies [p]. *)
Fixpoint all_chars (p : ascii -> bool) (s : string) : bool :=
  match s with
  | EmptyString => true
  | String c r => p c && all_chars p r
  end.

Definition all_space (s : string) : bool := all_chars is_space s.

(** The first character of [s] exists and satisfies [p]. *)
Definition head_is (p : ascii -> bool) (s : string) : bool :=
  match s with
  | EmptyString => false
  | String c _ => p c
  end.

(** [s[n:]]. *)
Fixpoint drop (n : nat) (s : string) : string :=
  match n, s with
  | O, _ => s
  | S n', String _ r => drop n' r
  | S _, EmptyString => EmptyString
  end.

Fixpoint rstrip (s : string) : string :=
  match s with
  | EmptyString => EmptyString
  | String c r => if all_space s then EmptyString else String c (rstrip r)
  end.

(** [str.strip()]. *)
Definition strip (s : string) : string := rstrip (lstrip s).

(** [clean_text]: [re.sub(r"\s+", " ", (s or "")).strip()]. *)
Definition clean_text (s : string) : string := strip (collapse_ws false s).

End Text.

Import Text.

(** ** Keyword tables *)

Definition SKILLS : list string :=
  [ "python"; "sql"; "java"; "javascript"; "typescript"; "c++"; "r";
    "machine learning"; "deep learning"; "nlp"; "computer vision";
    "pytorch"; "tensorflow"; "keras"; "scikit-learn"; "pandas"; "numpy";
    "aws"; "gcp"; "azure"; "docker"; "kubernetes";
    "react"; "node"; "flask"; "django"; "fastapi";
    "postgresql"; "mysql"; "mongodb"; "git" ].

(** A [dict] literal iterated with [.items()]: insertion order, so an
    association list. *)
Definition ROLE_KEYWORDS : list (string * list string) :=
  [ ("Data Scientist", ["data scientist"; "data science"]);
    ("ML Engineer", ["machine learning engineer"; "ml engineer"; "applied scientist"]);
    ("Data Analyst", ["data analyst"; "analytics"]);
    ("Software Engineer",
       ["software engineer"; "backend engineer"; "frontend engineer"; "full stack"; "full-stack"]);
    ("Data Engineer", ["data engineer"; "analytics engineer"]);
    ("DevOps", ["devops"; "site reliability"; "sre"; "platform engineer"]) ].

Definition REGION_KEYWORDS : list (string * list string) :=
  [ ("West Coast", ["ca"; "california"; "wa"; "washington"; "or"; "oregon"]);
    ("East Coast",
       ["ny"; "new york"; "nj"; "new jersey"; "ma"; "massachusetts"; "dc";
        "virginia"; "md"; "maryland"; "pa"; "pennsylvania"]);
    ("Central", ["tx"; "texas"; "il"; "illinois"; "co"; "colorado"; "ga"; "georgia"]) ].

(** ** Role and region classifiers *)

(** [any(k in t for k in keys)]. *)
Definition any_in (t : string) (keys : list string) : bool :=
  existsb (fun k => contains k t) keys.

(** The loop [for label, keys in table.items(): if any(...): return label],
    with [None] when the loop falls through. *)
Fixpoint first_bucket (t : string) (table : list (string * list string)) : option string :=
  match table with
  | [] => None
  | (label, keys) :: rest => if any_in t keys then Some label else first_bucket t rest
  end.

Definition categorize_role (title : string) : string :=
  let t := lower title in
  match first_bucket t ROLE_KEYWORDS with
  | Some role => role
  | None => "Other"
  end.

Definition classify_region (location : string) : string :=
  let text := lower location in
  match first_bucket text REGION_KEYWORDS with
  | Some region => region
  | None => if contains "remote" text then "Remote/Unspecified" else "Other/Unspecified"
  end.

(** ** Skill extraction *)

(** [\b]: exactly one of the two neighbours of a position is a word
    character; outside the text counts as a non-word character. *)
Definition word_before (prev : option ascii) : bool :=
  match prev with
  | Some c => is_word c
  | None => false
  end.

Definition word_at (s : string) : bool :=
  match s with
  | String c _ => is_word c
  | EmptyString => false
  end.

Definition boundary (prev : option ascii) (s : string) : bool :=
  xorb (word_before prev) (word_at s).

(** The escaped literal [sk] followed by [\b], read at the current
    position; [prev] is the character just before it. *)
Fixpoint literal_then_boundary (sk : string) (prev : option ascii) (s : string) : bool :=
  match sk with
  | EmptyString => boundary prev s
  | String k sk' =>
      match s with
      | String c r => Ascii.eqb k c && literal_then_boundary sk' (Some c) r
      | EmptyString => false
      end
  end.

(** [re.search(rf"\b{re.escape(sk)}\b", t)]: some position of the text
    matches. *)
Fixpoint search_word (sk : string) (prev : option ascii) (s : string) : bool :=
  (boundary prev s && literal_then_boundary sk prev s) ||
  match s with
  | EmptyString => false
  | String c r => search_word sk (Some c) r
  end.

(** The test of one vocabulary entry against the lowercased text. *)
Definition skill_matches (t sk : string) : bool :=
  if (String.length sk <=? 3)%nat || String.eqb sk "r"
  then search_word sk None t
  else contains sk t.

(** The loop [for x in xs: if key(x) not in seen: seen.add(key(x));
    out.append(x)]: the first element of every key, in order.  It is also
    what [DataFrame.drop_duplicates(subset=[key])] keeps (its default is
    [keep="first"]). *)
Fixpoint keep_first {A : Type} (key : A -> string) (seen : list string) (xs : list A) : list A :=
  match xs with
  | [] => []
  | x :: r =>
      if existsb (String.eqb (key x)) seen
      then keep_first key seen r
      else x :: keep_first key (key x :: seen) r
  end.

Definition extract_skills (text : string) (skill_list : list string) : list string :=
  let t := lower text in
  let found := filter (skill_matches t) skill_list in
  keep_first (fun x => x) [] found.

(** ** Binary64 numbers *)

Module F64.

Definition prec : Z := 53.
Definition emax : Z := 1024.

Definition float : Type := spec_float.

Definition mul : float -> float -> float := SFmul prec emax.
Definition add : float -> float -> float := SFadd prec emax.
Definition div : float -> float -> float := SFdiv prec emax.
Definition ltb : float -> float -> bool := SFltb.
Definition leb : float -> float -> bool := SFleb.

(** The float of an integer literal or constant ([15000], [2080.0]). *)
Definition of_Z (n : Z) : float := binary_normalize prec emax n 0 false.

(** [10^k]. *)
Fixpoint pow10 (k : nat) : positive :=
  match k with
  | O => 1
  | S k' => 10 * pow10 k'
  end.

(** [float(lit)] for a decimal literal without sign or exponent, given as
    the integer [n] its digits spell once the point is dropped and the
    number [k] of digits behind the point: the binary64 number nearest to
    [n / 10^k] (ties to even), infinity when that is out of range. *)
Definition of_decimal (n : N) (k : nat) : float :=
  match n with
  | N0 => S754_zero false
  | Npos p => div (S754_finite false p 0) (S754_finite false (pow10 k) 0)
  end.

End F64.

(** ** Salary parsing *)

(** The longest prefix of [s] whose characters satisfy [p], and what
    follows it: how a greedy [\d+] or [\s*] reads. *)
Fixpoint span (p : ascii -> bool) (s : string) : string * string :=
  match s with
  | EmptyString => (EmptyString, EmptyString)
  | String c r =>
      if p c
      then let (taken, rest) := span p r in (String c taken, rest)
      else (EmptyString, s)
  end.

(** The integer a string of decimal digits spells. *)
Definition digit_value (c : ascii) : N := (code c - 48)%N.

Fixpoint digits_value (acc : N) (ds : string) : N :=
  match ds with
  | EmptyString => acc
  | String c r => digits_value (10 * acc + digit_value c)%N r
  end.

(** [float(m.group(1))] where group 1 is [ip], or [ip "." fp] when the
    fraction [fp] is not empty. *)
Definition float_of_literal (ip fp : string) : F64.float :=
  F64.of_decimal (digits_value 0 (ip ++ fp)) (String.length fp).

(** The optional group [(?:\.\d+)?] read at [s]: the digits behind the
    point and what follows them, or nothing consumed. *)
Definition fraction_at (s : string) : string * string :=
  match s with
  | String c r =>
      if Ascii.eqb c "."
      then match span is_digit r with
           | (EmptyString, _) => (EmptyString, s)
           | (fp, rest) => (fp, rest)
           end
      else (EmptyString, s)
  | EmptyString => (EmptyString, s)
  end.

(** One match of [(\d+(?:\.\d+)?)\s*(k)?] starting at the head of [s], if
    there is one: the candidate it contributes and the number of
    characters it spans.  Every part is greedy and what follows it can
    match the empty text, so the match is the greedy reading. *)
Definition number_at (s : string) : option (F64.float * nat) :=
  match span is_digit s with
  | (EmptyString, _) => None
  | (ip, r1) =>
      let (fp, r2) := fraction_at r1 in
      let (ws, r3) := span is_space r2 in
      let val := float_of_literal ip fp in
      let len := (String.length s - String.length r3)%nat in
      if starts_with "k" r3
      then Some (F64.mul val (F64.of_Z 1000), S len)
      else Some (val, len)
  end.

(** [for m in re.finditer(..., txt): nums.append(...)]: positions are
    tried from left to right, and after a match the scan resumes behind
    it; [skip] counts the characters of the last match still to pass. *)
Fixpoint scan_numbers (skip : nat) (s : string) : list F64.float :=
  match s with
  | EmptyString => []
  | String _ r =>
      match skip with
      | S k => scan_numbers k r
      | O =>
          match number_at s with
          | Some (v, len) => v :: scan_numbers (Nat.pred len) r
          | None => scan_numbers 0 r
          end
      end
  end.

(** The scan as the specification words it: "an integer-or-decimal
    number optionally immediately followed by a k suffix", so no
    whitespace between the number and the suffix. *)
Definition number_at_spec (s : string) : option (F64.float * nat) :=
  match span is_digit s with
  | (EmptyString, _) => None
  | (ip, r1) =>
      let (fp, r2) := fraction_at r1 in
      let val := float_of_literal ip fp in
      let len := (String.length s - String.length r2)%nat in
      if starts_with "k" r2
      then Some (F64.mul val (F64.of_Z 1000), S len)
      else Some (val, len)
  end.

Fixpoint scan_numbers_spec (skip : nat) (s : string) : list F64.float :=
  match s with
  | EmptyString => []
  | String _ r =>
      match skip with
      | S k => scan_numbers_spec k r
      | O =>
          match number_at_spec s with
          | Some (v, len) => v :: scan_numbers_spec (Nat.pred len) r
          | None => scan_numbers_spec 0 r
          end
      end
  end.

(** [s] begins with a point and a digit, which [(?:\.\d+)?] would take. *)
Definition starts_fraction (s : string) : bool :=
  match s with
  | String c r => Ascii.eqb c "." && head_is is_digit r
  | EmptyString => false
  end.

(** The text of the optional fraction whose digits are [fp]. *)
Definition fraction_text (fp : string) : string :=
  match fp with
  | EmptyString => EmptyString
  | _ => "." ++ fp
  end.

(** The [if]/[elif] chain that guesses the pay period. *)
Definition detect_unit (txt : string) : string :=
  if contains "/hr" txt || contains "per hour" txt || contains "hour" txt then "hour"
  else if contains "/month" txt || contains "per month" txt then "month"
  else if contains "/week" txt || contains "per week" txt then "week"
  else "year".

(** [min(a, b)] and [max(a, b)] of Python: the first argument unless the
    second is strictly smaller (larger). *)
Definition fmin (a b : F64.float) : F64.float := if F64.ltb b a then b else a.
Definition fmax (a b : F64.float) : F64.float := if F64.ltb a b then b else a.

(** [lo, hi] from the candidates; [None] when there is none. *)
Definition first_two (nums : list F64.float) : option (F64.float * F64.float) :=
  match nums with
  | [] => None
  | n0 :: [] => Some (n0, n0)
  | n0 :: n1 :: _ => Some (fmin n0 n1, fmax n0 n1)
  end.

(** The conversion of one bound to a yearly amount. *)
Definition to_yearly (unit : string) (x : F64.float) : F64.float :=
  if String.eqb unit "hour" then F64.mul x (F64.of_Z 2080)
  else if String.eqb unit "week" then F64.mul x (F64.of_Z 52)
  else if String.eqb unit "month" then F64.mul x (F64.of_Z 12)
  else x.

(** The yearly conversion factors as the specification lists them. *)
Definition yearly_factor (unit : string) : Z :=
  if String.eqb unit "hour" then 2080
  else if String.eqb unit "week" then 52
  else if String.eqb unit "month" then 12
  else 1.

(** [lo < 15000 or hi > 700000]. *)
Definition implausible (lo hi : F64.float) : bool :=
  F64.ltb lo (F64.of_Z 15000) || F64.ltb (F64.of_Z 700000) hi.

(** The lowercased text without commas that the parser works on. *)
Definition salary_text (s0 : string) : string := remove_char "," (lower s0).

(** The yearly bounds before the plausibility test, when the text has a
    number. *)
Definition yearly_bounds (txt : string) : option (F64.float * F64.float) :=
  match first_two (scan_numbers 0 txt) with
  | None => None
  | Some (lo, hi) =>
      let unit := detect_unit txt in
      Some (to_yearly unit lo, to_yearly unit hi)
  end.

(** [parse_salary_to_yearly_usd]; an absent argument is read as [""]. *)
Definition parse_salary_to_yearly_usd (s : string)
  : option F64.float * option F64.float * string :=
  let s0 := clean_text s in
  if String.eqb s0 "" then (None, None, "unknown")
  else
    let txt := salary_text s0 in
    let unit := detect_unit txt in
    match yearly_bounds txt with
    | None => (None, None, unit)
    | Some (lo, hi) =>
        if implausible lo hi then (None, None, unit)
        else (Some lo, Some hi, unit)
    end.

(** ** Records and the cleaning pass *)

Record JobPost : Type := mkJobPost {
  source : string;
  title : string;
  company : string;
  location : string;
  date_posted_raw : string;
  salary_raw : string;
  url : string;
  description : string;
  scraped_at_utc : string
}.

(** A row of the frame [clean_posts] returns: the columns of the post and
    the derived ones.  A [NaN] cell is [None]. *)
Record EnrichedPost : Type := mkEnrichedPost {
  post : JobPost;
  role_category : string;
  region : string;
  skills : list string;
  num_skills : nat;
  salary_min_usd_year : option F64.float;
  salary_max_usd_year : option F64.float;
  salary_unit_guess : string;
  salary_mid_usd_year : option F64.float
}.

(** The six assignments [out[col] = out[col].map(clean_text)]. *)
Definition normalize_post (p : JobPost) : JobPost :=
  {| source := clean_text (source p);
     title := clean_text (title p);
     company := clean_text (company p);
     location := clean_text (location p);
     date_posted_raw := date_posted_raw p;
     salary_raw := salary_raw p;
     url := clean_text (url p);
     description := clean_text (description p);
     scraped_at_utc := scraped_at_utc p |}.

(** [out.drop_duplicates(subset=["url"]).reset_index(drop=True)]. *)
Definition drop_duplicates_url (rows : list JobPost) : list JobPost :=
  keep_first url [] rows.

(** [frame[[a, b]].mean(axis=1)] on one row of two float columns: pandas
    leaves the [NaN] cells out ([skipna=True]), adds the others and
    divides by their number; a row of [NaN]s gives [NaN]. *)
Definition cell_or_zero (x : option F64.float) : F64.float :=
  match x with
  | Some v => v
  | None => S754_zero false
  end.

Definition cell_count (x : option F64.float) : Z :=
  match x with
  | Some _ => 1
  | None => 0
  end.

Definition row_mean (a b : option F64.float) : option F64.float :=
  match a, b with
  | None, None => None
  | _, _ =>
      Some (F64.div (F64.add (cell_or_zero a) (cell_or_zero b))
                    (F64.of_Z (cell_count a + cell_count b)))
  end.

(** The derived columns of one row. *)
Definition enrich (p : JobPost) : EnrichedPost :=
  let found := extract_skills (title p ++ " " ++ description p) SKILLS in
  let parsed := parse_salary_to_yearly_usd (salary_raw p) in
  let lo := fst (fst parsed) in
  let hi := snd (fst parsed) in
  {| post := p;
     role_category := categorize_role (title p);
     region := classify_region (location p);
     skills := found;
     num_skills := List.length found;
     salary_min_usd_year := lo;
     salary_max_usd_year := hi;
     salary_unit_guess := snd parsed;
     salary_mid_usd_year := row_mean lo hi |}.

Definition clean_posts (df : list JobPost) : list EnrichedPost :=
  map enrich (drop_duplicates_url (map normalize_post df)).

(** ** Order and rounding of binary64 numbers *)

Module Round.

Local Open Scope Z_scope.

(** The numbers the parser can produce: [+0], a positive finite number in
    canonical form, or [+inf]. *)
Definition good (x : F64.float) : bool :=
  match x with
  | S754_zero false => true
  | S754_infinity false => true
  | S754_finite false m e => bounded F64.prec F64.emax m e
  | _ => false
  end.

(** The rank of a number of [good]: the non-negative binary64 numbers in
    increasing order are numbered from 0 (it is the integer their bit
    pattern spells). *)
Definition ord_inf : Z := 2047 * 2 ^ 52.

Definition ord (x : F64.float) : Z :=
  match x with
  | S754_zero _ => 0
  | S754_finite _ m e => (e + 1074) * 2 ^ 52 + Zpos m
  | S754_infinity _ => ord_inf
  | S754_nan => -1
  end.

(** [p / 2^k] rounded to the nearest integer, ties to even. *)
Definition rne (p k : Z) : Z :=
  let q := p / 2 ^ k in
  match 2 * (p mod 2 ^ k) ?= 2 ^ k with
  | Lt => q
  | Eq => if Z.even q then q else q + 1
  | Gt => q + 1
  end.

(** Where [p / 2^k] lies between [p / 2^k] rounded down and the next
    integer. *)
Definition loc_spec (p k : Z) : SpecFloat.location :=
  let r := p mod 2 ^ k in
  if r =? 0 then loc_Exact else loc_Inexact (2 * r ?= 2 ^ k).

(** The rank of [p * 2^E] rounded to binary64, as long as it is finite. *)
Definition raw_ord (p E : Z) : Z :=
  let e := fexp F64.prec F64.emax (Zdigits2 p + E) in
  (e + 1074) * 2 ^ 52 + rne p (e - E).

(** The second half of [binary_round_aux]: the rounded mantissa is put
    back in canonical form and the overflow test is made. *)
Definition finish (m1 e1 : Z) : F64.float :=
  let '(mrs, e) := shr_fexp F64.prec F64.emax m1 e1 loc_Exact in
  match shr_m mrs with
  | Z0 => S754_zero false
  | Zpos m => if e <=? F64.emax - F64.prec then S754_finite false m e else S754_infinity false
  | Zneg _ => S754_nan
  end.

(** A positive finite number with a full 53-bit mantissa. *)
Definition normal (c : F64.float) : bool :=
  match c with
  | S754_finite false m e => bounded F64.prec F64.emax m e && (2 ^ 52 <=? Z.pos m)
  | _ => false
  end.

End Round.

(** A post for the examples: only the salary text and the URL vary. *)
Definition sample_post (salary link : string) : JobPost :=
  {| source := "RemoteOK"; title := "Data Scientist"; company := "Acme";
     location := "Remote"; date_posted_raw := ""; salary_raw := salary;
     url := link; description := "Python and SQL"; scraped_at_utc := "" |}.

(** ** Relations used to state the properties *)

(** [subseq xs ys]: [xs] is [ys] with some elements left out, the others
    in their order. *)
Inductive subseq {A : Type} : list A -> list A -> Prop :=
| subseq_nil : subseq [] []
| subseq_skip x xs ys : subseq xs ys -> subseq xs (x :: ys)
| subseq_take x xs ys : subseq xs ys -> subseq (x :: xs) (x :: ys).

(** The last character of [l], or [prev] when [l] is empty. *)
Fixpoint last_char (prev : option ascii) (l : string) : option ascii :=
  match l with
  | EmptyString => prev
  | String c r => last_char (Some c) r
  end.

(** A word boundary between the texts [l] and [r]. *)
Definition word_boundary (l r : string) : bool :=
  boundary (last_char None l) r.

(** Characters above 127 for the examples, by their code point: the
    no-break space U+00A0 and the letters U+00E4, U+00E9 and U+00FC. *)
Definition nbsp : ascii := ascii_of_N 160.
Definition a_umlaut : ascii := ascii_of_N 228.
Definition e_acute : ascii := ascii_of_N 233.
Definition u_umlaut : ascii := ascii_of_N 252.

(** ** Vocabulary of the further properties *)

(** Every whitespace character of [s] is a single space between two
    other characters or at an end. *)
Fixpoint single_spaced (s : string) : bool :=
  match s with
  | EmptyString => true
  | String c r =>
      (if is_space c then Ascii.eqb c " " && negb (head_is is_space r) else true)
      && single_spaced r
  end.

(** [s] ends with a whitespace character. *)
Definition ends_with_space (s : string) : bool :=
  match last_char None s with
  | Some c => is_space c
  | None => false
  end.

(** The texts [clean_text] leaves alone: no whitespace at either end,
    and inside only single spaces. *)
Definition tidy (s : string) : bool :=
  negb (head_is is_space s) && negb (ends_with_space s) && single_spaced s.

(** [s] without its whitespace. *)
Fixpoint non_space_chars (s : string) : string :=
  match s with
  | EmptyString => EmptyString
  | String c r => if is_space c then non_space_chars r else String c (non_space_chars r)
  end.

(** [s.split()]: the maximal runs of non-whitespace characters. *)
Fixpoint words (s : string) : list string :=
  match s with
  | EmptyString => []
  | String c r =>
      if is_space c then words r
      else if head_is is_space r then String c EmptyString :: words r
      else match words r with
           | w :: ws => String c w :: ws
           | [] => [String c EmptyString]
           end
  end.

(** No character of [s] is an upper-case letter. *)
Definition no_upper (s : string) : bool := all_chars (fun c => negb (is_upper c)) s.

(** The keys of [ROLE_KEYWORDS] and the fallback of [categorize_role]. *)
Definition ROLE_LABELS : list string :=
  ["Data Scientist"; "ML Engineer"; "Data Analyst"; "Software Engineer";
   "Data Engineer"; "DevOps"; "Other"].

(** The keys of [REGION_KEYWORDS] and the two fallbacks of
    [classify_region]. *)
Definition REGION_LABELS : list string :=
  ["West Coast"; "East Coast"; "Central"; "Remote/Unspecified"; "Other/Unspecified"].

(** ** Fetching with retries *)

(** What one [SESSION.get] does: it returns a response, or raises an
    exception of class [Exception] whose text is [e]. *)
Inductive reply : Type :=
| Response (status_code : Z) (text : string)
| Raised (e : string).

(** What [polite_get] does: it returns the text, or raises [RuntimeError]
    with a message. *)
Inductive fetched : Type :=
| Fetched (text : string)
| FetchError (message : string).

(** [str(n)] for an [int]. *)
Definition int_str (n : Z) : string := NilZero.string_of_int (Z.to_int n).

(** The test [resp.status_code == 200 and resp.text]. *)
Definition accepted (r : reply) : bool :=
  match r with
  | Response status_code text => (status_code =? 200)%Z && negb (String.eqb text "")
  | Raised _ => false
  end.

(** The text of [last_err] after a reply that is not accepted. *)
Definition error_text (url : string) (r : reply) : string :=
  match r with
  | Response status_code _ => "HTTP " ++ int_str status_code ++ " for " ++ url
  | Raised e => e
  end.

(** [f"{last_err}"]. *)
Definition last_err_text (last_err : option string) : string :=
  match last_err with
  | Some e => e
  | None => "None"
  end.

(** The loop [for attempt in range(1, retries + 1)] with [left] attempts
    to go.  [net n] is the reply to the request number [n] of the
    session, [sent] the number of requests made so far.  The pauses
    ([time.sleep], with the default non-negative back-off) take time and
    nothing else. *)
Fixpoint attempt_loop (url : string) (net : nat -> reply) (left sent : nat)
    (last_err : option string) : fetched * nat :=
  match left with
  | O => (FetchError ("Failed to fetch " ++ url ++ ". Last error: " ++ last_err_text last_err),
          sent)
  | S left' =>
      match net sent with
      | Response status_code text =>
          if (status_code =? 200)%Z && negb (String.eqb text "")
          then (Fetched text, S sent)
          else attempt_loop url net left' (S sent)
                 (Some ("HTTP " ++ int_str status_code ++ " for " ++ url))
      | Raised e => attempt_loop url net left' (S sent) (Some e)
      end
  end.

Definition polite_get (url : string) (retries : Z) (net : nat -> reply) (sent : nat)
  : fetched * nat :=
  attempt_loop url net (Z.to_nat retries) sent None.

(** ** Scrapers *)

(** The values a decoded JSON object holds, as far as the scrapers look
    at them: their truth value and their [str()].  [PObj] is any value
    that is not [None], a [bool], an [int] or a [str] (a float, a list, a
    dict), given by those two. *)
Inductive pyval : Type :=
| PNone
| PBool (b : bool)
| PInt (n : Z)
| PStr (s : string)
| PObj (truth : bool) (text : string).

Definition truthy (v : pyval) : bool :=
  match v with
  | PNone => false
  | PBool b => b
  | PInt n => negb (n =? 0)%Z
  | PStr s => negb (String.eqb s "")
  | PObj truth _ => truth
  end.

Definition py_str (v : pyval) : string :=
  match v with
  | PNone => "None"
  | PBool true => "True"
  | PBool false => "False"
  | PInt n => int_str n
  | PStr s => s
  | PObj _ text => text
  end.

(** [a or b]. *)
Definition py_or (a b : pyval) : pyval := if truthy a then a else b.

(** A decoded JSON object, and an element of a decoded sequence: a dict
    or something else. *)
Definition dict : Type := string -> option pyval.
Definition item : Type := option dict.

(** [d.get(k)] and [d.get(k, default)]. *)
Definition get (d : dict) (k : string) : pyval :=
  match d k with
  | Some v => v
  | None => PNone
  end.

Definition get_default (d : dict) (k : string) (default : pyval) : pyval :=
  match d k with
  | Some v => v
  | None => default
  end.

(** The value under "jobs" of a payload: something a [for] can run over
    (a list; or a str or dict, whose elements are not dicts), or not. *)
Inductive jobs_value : Type :=
| Iterable (items : list item)
| NotIterable.

(** What [json.loads] gives: an exception, a sequence (a list, or a str
    as the sequence of its characters), a dict with or without the key
    "jobs", or a number, boolean or null. *)
Inductive decoded : Type :=
| Undecodable
| Sequence (items : list item)
| Mapping (jobs : option jobs_value)
| Scalar.

(** The exceptions that leave a scraper or [clean_posts].  [NotSliceable] is what
    [data[1:]] raises on a value that is no sequence: [TypeError], or
    [KeyError] for a dict where slices can be hashed. *)
Inductive failure : Type :=
| RuntimeError (message : string)
| RequestException (e : string)
| JSONDecodeError
| NotSliceable
| TypeError
| AttributeError
| ParserError
| KeyError.

Inductive outcome (A : Type) : Type :=
| Returned (a : A)
| Failed (f : failure).

Arguments Returned {A} a.
Arguments Failed {A} f.

(** What the scrapers get from outside: the replies of the network, the
    JSON decoder, [BeautifulSoup(desc, "html.parser").get_text(" ")]
    ([None] when it raises) and the clock read by [now_utc_iso]. *)
Record env : Type := mkEnv {
  net : nat -> reply;
  json_loads : string -> decoded;
  html_text : pyval -> option string;
  now_utc_iso : nat -> string
}.

(** The part of the loop body the two scrapers share, after the fields
    are read: [if not title or not company or not job_url: continue],
    else the post. *)
Definition keep_post (e : env) (src t c l d s u desc : string) (ticks : nat)
  : option JobPost :=
  if String.eqb t "" || String.eqb c "" || String.eqb u "" then None
  else Some {| source := src; title := t; company := c; location := l;
               date_posted_raw := d; salary_raw := s; url := u;
               description := desc; scraped_at_utc := now_utc_iso e ticks |}.

(** The body of the loop of [scrape_remoteok] on one element: skipped
    ([None]), a post, or an exception. *)
Definition remoteok_item (e : env) (it : item) (ticks : nat) : outcome (option JobPost) :=
  match it with
  | None => Returned None
  | Some d =>
      let title := clean_text (py_str (py_or (py_or (get d "position") (get d "title")) (PStr ""))) in
      let company := clean_text (py_str (py_or (get d "company") (PStr ""))) in
      let location := clean_text (py_str (py_or (get d "location") (PStr ""))) in
      let date_posted_raw :=
        clean_text (py_str (py_or (py_or (get d "date") (get d "epoch")) (PStr ""))) in
      let salary_raw := clean_text (py_str (py_or (get d "salary") (PStr ""))) in
      let job_url := py_or (get d "url") (PStr "") in
      match (if truthy job_url
             then match job_url with
                  | PStr s => Some (PStr (if starts_with "/" s
                                          then "https://remoteok.com" ++ s else s))
                  | _ => None
                  end
             else Some job_url) with
      | None => Failed AttributeError
      | Some job_url =>
          let job_url := clean_text (py_str job_url) in
          match html_text e (py_or (get d "description") (PStr "")) with
          | None => Failed ParserError
          | Some desc =>
              Returned (keep_post e "RemoteOK" title company location date_posted_raw
                          salary_raw job_url (clean_text desc) ticks)
          end
      end
  end.

(** The body of the loop of [scrape_remotive]. *)
Definition remotive_item (e : env) (it : item) (ticks : nat) : outcome (option JobPost) :=
  match it with
  | None => Failed AttributeError
  | Some j =>
      let title := clean_text (py_str (get_default j "title" (PStr ""))) in
      let company := clean_text (py_str (get_default j "company_name" (PStr ""))) in
      let location :=
        let l := clean_text (py_str (get_default j "candidate_required_location" (PStr ""))) in
        if String.eqb l "" then "Remote" else l in
      let date_posted_raw := clean_text (py_str (get_default j "publication_date" (PStr ""))) in
      let salary_raw := clean_text (py_str (get_default j "salary" (PStr ""))) in
      let job_url := clean_text (py_str (get_default j "url" (PStr ""))) in
      match html_text e (py_or (get_default j "description" (PStr "")) (PStr "")) with
      | None => Failed ParserError
      | Some desc =>
          Returned (keep_post e "Remotive" title company location date_posted_raw
                      salary_raw job_url (clean_text desc) ticks)
      end
  end.

(** The [for] loop of both scrapers: [posts.append(...)] and
    [if len(posts) >= limit: break].  [ticks] counts the readings of the
    clock. *)
Fixpoint scrape_loop (body : item -> nat -> outcome (option JobPost)) (limit : Z)
    (items : list item) (posts : list JobPost) (ticks : nat)
  : outcome (list JobPost * nat) :=
  match items with
  | [] => Returned (posts, ticks)
  | it :: rest =>
      match body it ticks with
      | Failed f => Failed f
      | Returned None => scrape_loop body limit rest posts ticks
      | Returned (Some p) =>
          let posts := (posts ++ [p])%list in
          if (limit <=? Z.of_nat (List.length posts))%Z
          then Returned (posts, S ticks)
          else scrape_loop body limit rest posts (S ticks)
      end
  end.

(** [scrape_remoteok(limit)], from [sent] requests made and [ticks] clock
    readings; it returns the posts and the two counters. *)
Definition scrape_remoteok (e : env) (limit : Z) (sent ticks : nat)
  : outcome (list JobPost * nat * nat) :=
  match polite_get "https://remoteok.com/api" 3 (net e) sent with
  | (FetchError message, _) => Failed (RuntimeError message)
  | (Fetched text, sent) =>
      match json_loads e text with
      | Undecodable => Failed JSONDecodeError
      | Sequence data =>
          match scrape_loop (remoteok_item e) limit (tl data) [] ticks with
          | Failed f => Failed f
          | Returned (posts, ticks) => Returned (posts, sent, ticks)
          end
      | Mapping _ | Scalar => Failed NotSliceable
      end
  end.

(** [scrape_remotive(limit, category, search)]; the two optional
    arguments only go into the request. *)
Definition scrape_remotive (e : env) (limit : Z) (sent ticks : nat)
  : outcome (list JobPost * nat * nat) :=
  match net e sent with
  | Raised ex => Failed (RequestException ex)
  | Response status_code text =>
      if negb (status_code =? 200)%Z then Returned ([], S sent, ticks)
      else
        match json_loads e text with
        | Undecodable => Failed JSONDecodeError
        | Mapping (Some NotIterable) => Failed TypeError
        | Mapping (Some (Iterable jobs)) =>
            match scrape_loop (remotive_item e) limit jobs [] ticks with
            | Failed f => Failed f
            | Returned (posts, ticks) => Returned (posts, S sent, ticks)
            end
        | Mapping None | Sequence _ | Scalar => Returned ([], S sent, ticks)
        end
  end.

(** A frame of posts: its rows when it has the nine columns of
    [JobPost], or a frame without any column. *)
Inductive frame : Type :=
| NoColumns
| Rows (rows : list JobPost).

(** [pd.DataFrame(posts_to_dicts(posts))]: the columns are the keys of
    the dicts [asdict] makes of the posts, so no post gives no column. *)
Definition data_frame (posts : list JobPost) : frame :=
  match posts with
  | [] => NoColumns
  | _ :: _ => Rows posts
  end.

(** [collect_posts(remoteok_limit, remotive_limit)]: the frame of the
    posts of both sources, RemoteOK first. *)
Definition collect_posts (e : env) (remoteok_limit remotive_limit : Z) (sent ticks : nat)
  : outcome frame :=
  match scrape_remoteok e remoteok_limit sent ticks with
  | Failed f => Failed f
  | Returned (posts1, sent, ticks) =>
      match scrape_remotive e remotive_limit sent ticks with
      | Failed f => Failed f
      | Returned (posts2, _, _) => Returned (data_frame (posts1 ++ posts2)%list)
      end
  end.

(** [clean_posts(df)] on such a frame: [out["title"]] raises [KeyError]
    when the frame has no column. *)
Definition clean_posts_frame (df : frame) : outcome (list EnrichedPost) :=
  match df with
  | NoColumns => Failed KeyError
  | Rows rows => Returned (clean_posts rows)
  end.

(** A post as the scrapers make them: cleaned fields, with a title, a
    company and a URL. *)
Definition well_formed (p : JobPost) : Prop :=
  title p <> "" /\ company p <> "" /\ url p <> "" /\
  tidy (source p) = true /\ tidy (title p) = true /\ tidy (company p) = true /\ tidy (location p) = true /\
  tidy (date_posted_raw p) = true /\ tidy (salary_raw p) = true /\
  tidy (url p) = true /\ tidy (description p) = true.

(** An environment for the examples: the first request is answered with
    the RemoteOK payload, the others with the Remotive payload.  The
    RemoteOK payload holds one job twice behind its leading element; the
    Remotive payload holds that job and the same job under the absolute
    URL RemoteOK gives it. *)
Definition sample_job : dict :=
  fun k =>
    if String.eqb k "position" then Some (PStr "Data  Engineer ")
    else if String.eqb k "title" then Some (PStr "Data  Engineer ")
    else if String.eqb k "company" then Some (PStr "Acme")
    else if String.eqb k "company_name" then Some (PStr "Acme")
    else if String.eqb k "url" then Some (PStr "/jobs/1")
    else if String.eqb k "salary" then Some PNone
    else None.

Definition sample_job_abs : dict :=
  fun k =>
    if String.eqb k "url" then Some (PStr "https://remoteok.com/jobs/1") else sample_job k.

Definition sample_env : env :=
  {| net := fun n => if Nat.eqb n 0 then Response 200 "remoteok" else Response 200 "remotive";
     json_loads := fun text =>
       if String.eqb text "remoteok"
       then Sequence [Some sample_job; Some sample_job; Some sample_job]
       else Mapping (Some (Iterable [Some sample_job; Some sample_job_abs]));
     html_text := fun v => Some (py_str v);
     now_utc_iso := fun n => int_str (Z.of_nat n) |}.

(** A job without a title: both scrapers skip it. *)
Definition untitled_job : dict :=
  fun k =>
    if String.eqb k "company" then Some (PStr "Acme")
    else if String.eqb k "company_name" then Some (PStr "Acme")
    else if String.eqb k "url" then Some (PStr "/jobs/0")
    else None.

(** An environment whose payloads begin with elements that are skipped:
    behind the leading element RemoteOK has a number, a job without a
    title and then [sample_job] twice; Remotive has two jobs without a
    title and then [sample_job] twice. *)
Definition sparse_env : env :=
  {| net := fun n => if Nat.eqb n 0 then Response 200 "remoteok" else Response 200 "remotive";
     json_loads := fun text =>
       if String.eqb text "remoteok"
       then Sequence [Some sample_job; None; Some untitled_job; Some sample_job;
                      Some sample_job]
       else Mapping (Some (Iterable [Some untitled_job; Some untitled_job;
                                     Some sample_job; Some sample_job]));
     html_text := fun v => Some (py_str v);
     now_utc_iso := fun n => int_str (Z.of_nat n) |}.

(** An environment in which no source has a job: RemoteOK answers with
    its leading element alone, Remotive with status 503. *)
Definition quiet_env : env :=
  {| net := fun n => if Nat.eqb n 0 then Response 200 "remoteok" else Response 503 "";
     json_loads := fun _ => Sequence [None];
     html_text := fun v => Some (py_str v);
     now_utc_iso := fun n => int_str (Z.of_nat n) |}.

(** The post the scrapers make of [sample_job], up to the source, the
    location, the salary text, the URL and the time stamp. *)
Definition sample_scraped (src loc sal link stamp : string) : JobPost :=
  {| source := src; title := "Data Engineer"; company := "Acme"; location := loc;
     date_posted_raw := ""; salary_raw := sal; url := link; description := "";
     scraped_at_utc := stamp |}.

(** The frame [collect_posts] builds in [sample_env] with both limits 2. *)
Definition sample_frame : list JobPost :=
  [sample_scraped "RemoteOK" "" "" "https://remoteok.com/jobs/1" "0";
   sample_scraped "RemoteOK" "" "" "https://remoteok.com/jobs/1" "1";
   sample_scraped "Remotive" "Remote" "None" "/jobs/1" "2";
   sample_scraped "Remotive" "Remote" "None" "https://remoteok.com/jobs/1" "3"].

(** * Properties *)

(** ** Properties of the classifiers *)

Section FirstBucket.

Variable t : string.

Lemma first_bucket_hit pre label keys post :
  (forall b, In b pre -> any_in t (snd b) = false) ->
  any_in t keys = true ->
  first_bucket t (pre ++ (label, keys) :: post)%list = Some label.
Proof.
  induction pre as [|[l0 k0] pre IH]; intros Hpre Hk; simpl.
  - now rewrite Hk.
  - pose proof (Hpre (l0, k0) (or_introl eq_refl)) as E. simpl in E.
    rewrite E. apply IH; auto.
    intros b Hb. apply Hpre. now right.
Qed.

Lemma first_bucket_miss table :
  (forall b, In b table -> any_in t (snd b) = false) ->
  first_bucket t table = None.
Proof.
  induction table as [|[l0 k0] table IH]; intros H; simpl; auto.
  pose proof (H (l0, k0) (or_introl eq_refl)) as E. simpl in E.
  rewrite E. apply IH.
  intros b Hb. apply H. now right.
Qed.

End FirstBucket.

Lemma any_in_spec t keys :
  any_in t keys = true <-> exists k, In k keys /\ contains k t = true.
Proof. unfold any_in. apply existsb_exists. Qed.

(** C5. [categorize_role] lowercases the title and returns the first
    bucket of [ROLE_KEYWORDS], in declaration order, one of whose keywords
    is a substring of the lowercased title, and ["Other"] when no keyword
    of any bucket is; the three titles of the specification land in
    "Data Scientist", "Software Engineer" and "Other". *)
Theorem categorize_role_first_match :
  (forall title pre role keys post,
      ROLE_KEYWORDS = (pre ++ (role, keys) :: post)%list ->
      (forall b k, In b pre -> In k (snd b) -> contains k (lower title) = false) ->
      (exists k, In k keys /\ contains k (lower title) = true) ->
      categorize_role title = role) /\
  (forall title,
      (forall b k, In b ROLE_KEYWORDS -> In k (snd b) -> contains k (lower title) = false) ->
      categorize_role title = "Other") /\
  categorize_role "Senior Data Scientist" = "Data Scientist" /\
  categorize_role "Backend Engineer" = "Software Engineer" /\
  categorize_role "Chef" = "Other".
Proof.
  split; [|split; [|repeat split; reflexivity]].
  - intros title pre role keys post Htab Hpre Hk.
    unfold categorize_role. rewrite Htab.
    rewrite (first_bucket_hit (lower title) pre role keys post); auto.
    + intros b Hb. destruct (any_in (lower title) (snd b)) eqn:E; auto.
      apply any_in_spec in E. destruct E as (k & Hin & Hc).
      rewrite (Hpre b k Hb Hin) in Hc. discriminate.
    + now apply any_in_spec.
  - intros title Hnone. unfold categorize_role.
    rewrite first_bucket_miss; auto.
    intros b Hb. destruct (any_in (lower title) (snd b)) eqn:E; auto.
    apply any_in_spec in E. destruct E as (k & Hin & Hc).
    rewrite (Hnone b k Hb Hin) in Hc. discriminate.
Qed.

(** C6. [classify_region] lowercases the location and returns the first
    region of [REGION_KEYWORDS], in declaration order, one of whose
    keywords is a substring of it; when no keyword of any region is, the
    answer is "Remote/Unspecified" if the text contains "remote" and
    "Other/Unspecified" otherwise; the three locations of the
    specification land in "West Coast", "Remote/Unspecified" and
    "Other/Unspecified". *)
Theorem classify_region_first_match :
  (forall location pre region keys post,
      REGION_KEYWORDS = (pre ++ (region, keys) :: post)%list ->
      (forall b k, In b pre -> In k (snd b) -> contains k (lower location) = false) ->
      (exists k, In k keys /\ contains k (lower location) = true) ->
      classify_region location = region) /\
  (forall location,
      (forall b k, In b REGION_KEYWORDS -> In k (snd b) -> contains k (lower location) = false) ->
      classify_region location =
        if contains "remote" (lower location)
        then "Remote/Unspecified" else "Other/Unspecified") /\
  classify_region "San Francisco, CA" = "West Coast" /\
  classify_region "Remote (US)" = "Remote/Unspecified" /\
  classify_region "Berlin" = "Other/Unspecified".
Proof.
  split; [|split; [|repeat split; reflexivity]].
  - intros location pre region keys post Htab Hpre Hk.
    unfold classify_region. rewrite Htab.
    rewrite (first_bucket_hit (lower location) pre region keys post); auto.
    + intros b Hb. destruct (any_in (lower location) (snd b)) eqn:E; auto.
      apply any_in_spec in E. destruct E as (k & Hin & Hc).
      rewrite (Hpre b k Hb Hin) in Hc. discriminate.
    + now apply any_in_spec.
  - intros location Hnone. unfold classify_region.
    rewrite first_bucket_miss; auto.
    intros b Hb. destruct (any_in (lower location) (snd b)) eqn:E; auto.
    apply any_in_spec in E. destruct E as (k & Hin & Hc).
    rewrite (Hnone b k Hb Hin) in Hc. discriminate.
Qed.

(** ** Substrings and word-anchored search *)

Lemma starts_with_spec n h :
  starts_with n h = true <-> exists post, h = n ++ post.
Proof.
  revert h. induction n as [|a n IH]; intros h; simpl.
  - split; [intros _; now exists h | reflexivity].
  - destruct h as [|b h].
    + split; [discriminate | intros [post H]; discriminate].
    + rewrite andb_true_iff, IH, Ascii.eqb_eq. split.
      * intros (-> & post & ->). now exists post.
      * intros (post & H). injection H as -> ->. split; auto. now exists post.
Qed.

(** [contains] is the substring test. *)
Lemma contains_spec n h :
  contains n h = true <-> exists pre post, h = pre ++ n ++ post.
Proof.
  induction h as [|c h IH]; simpl.
  - rewrite orb_false_r, starts_with_spec. split.
    + intros [post H]. now exists "", post.
    + intros (pre & post & H). destruct pre; [now exists post|discriminate].
  - rewrite orb_true_iff, starts_with_spec, IH. split.
    + intros [[post H]|(pre & post & H)].
      * now exists "", post.
      * exists (String c pre), post. simpl. now rewrite H.
    + intros (pre & post & H). destruct pre as [|d pre]; simpl in H.
      * left. now exists post.
      * right. exists pre, post. now injection H.
Qed.

Lemma last_char_app prev l r :
  last_char prev (l ++ r) = last_char (last_char prev l) r.
Proof. revert prev. induction l; intros; simpl; auto. Qed.

Lemma literal_then_boundary_spec sk prev s :
  literal_then_boundary sk prev s = true <->
  exists post, s = sk ++ post /\ boundary (last_char prev sk) post = true.
Proof.
  revert prev s. induction sk as [|k sk IH]; intros prev s; simpl.
  - split.
    + intros H. now exists s.
    + now intros (post & -> & H).
  - destruct s as [|c r].
    + split; [discriminate | intros (post & H & _); discriminate].
    + rewrite andb_true_iff, IH. split.
      * intros (Hk & post & -> & Hb). apply Ascii.eqb_eq in Hk. subst c.
        now exists post.
      * intros (post & H & Hb). injection H as -> ->. split.
        -- apply Ascii.eqb_refl.
        -- now exists post.
Qed.

(** [search_word sk None t] holds exactly when [t] has an occurrence of
    [sk] with a word boundary on its left and one on its right. *)
Lemma search_word_gen sk prev s :
  search_word sk prev s = true <->
  exists pre post,
    s = pre ++ sk ++ post /\
    boundary (last_char prev pre) (sk ++ post) = true /\
    boundary (last_char prev (pre ++ sk)) post = true.
Proof.
  revert prev. induction s as [|c r IH]; intros prev.
  - cbn [search_word]. rewrite orb_false_r, andb_true_iff, literal_then_boundary_spec.
    split.
    + intros (Hb & post & Hs & Hb'). exists "", post. cbn. rewrite <- Hs. auto.
    + intros (pre & post & Hs & Hb & Hb').
      destruct pre; [|discriminate]. cbn in *. rewrite <- Hs in Hb.
      split; auto. now exists post.
  - cbn [search_word]. rewrite orb_true_iff, andb_true_iff, literal_then_boundary_spec, IH.
    split.
    + intros [(Hb & post & Hs & Hb')|(pre & post & Hs & Hb & Hb')].
      * exists "", post. cbn. rewrite <- Hs. auto.
      * exists (String c pre), post. cbn. rewrite Hs. auto.
    + intros (pre & post & Hs & Hb & Hb'). destruct pre as [|d pre].
      * left. cbn in *. rewrite <- Hs in Hb. split; auto. now exists post.
      * right. cbn in Hs. injection Hs as -> Hs.
        exists pre, post. cbn in Hb, Hb'. auto.
Qed.

Lemma search_word_spec sk t :
  search_word sk None t = true <->
  exists pre post,
    t = pre ++ sk ++ post /\
    word_boundary pre (sk ++ post) = true /\
    word_boundary (pre ++ sk) post = true.
Proof. apply search_word_gen. Qed.

(** ** Keeping the first element of every key *)

Section KeepFirst.

Context {A : Type} (key : A -> string).

Lemma seen_spec k seen :
  existsb (String.eqb k) seen = true <-> In k seen.
Proof.
  rewrite existsb_exists. split.
  - intros (x & Hin & Heq). apply String.eqb_eq in Heq. now subst.
  - intros H. exists k. split; auto. apply String.eqb_refl.
Qed.

Lemma keep_first_In seen xs x :
  In x (keep_first key seen xs) -> In x xs /\ ~ In (key x) seen.
Proof.
  revert seen. induction xs as [|y r IH]; intros seen; simpl; [tauto|].
  destruct (existsb (String.eqb (key y)) seen) eqn:E.
  - intros H. apply IH in H. tauto.
  - intros [<-|H].
    + split; auto. intros Hin. apply seen_spec in Hin. congruence.
    + apply IH in H. destruct H as [H1 H2]. split; auto.
      intros Hin. apply H2. now right.
Qed.

Lemma keep_first_keys seen xs k :
  In k (map key (keep_first key seen xs)) <-> In k (map key xs) /\ ~ In k seen.
Proof.
  revert seen. induction xs as [|y r IH]; intros seen; simpl; [tauto|].
  destruct (existsb (String.eqb (key y)) seen) eqn:E.
  - rewrite IH. apply seen_spec in E. split; [tauto|].
    intros [[<-|H] Hn]; tauto.
  - assert (Hy : ~ In (key y) seen) by (rewrite <- seen_spec; congruence).
    simpl. rewrite IH. simpl. split.
    + intros [<-|[H Hn]]; tauto.
    + intros [[<-|H] Hn]; auto.
      destruct (string_dec (key y) k); auto. right. tauto.
Qed.

Lemma keep_first_NoDup seen xs :
  NoDup (map key (keep_first key seen xs)).
Proof.
  revert seen. induction xs as [|y r IH]; intros seen; simpl; [constructor|].
  destruct (existsb (String.eqb (key y)) seen) eqn:E; auto.
  simpl. constructor; auto.
  rewrite keep_first_keys. simpl. tauto.
Qed.

Lemma keep_first_subseq seen xs :
  subseq (keep_first key seen xs) xs.
Proof.
  revert seen. induction xs as [|y r IH]; intros seen; simpl; [constructor|].
  destruct (existsb (String.eqb (key y)) seen);
    [apply subseq_skip | apply subseq_take]; apply IH.
Qed.

(** Of the elements of key [k], exactly the first one survives. *)
Lemma keep_first_filter seen xs k :
  filter (fun x => String.eqb (key x) k) (keep_first key seen xs) =
  if existsb (String.eqb k) seen then []
  else match filter (fun x => String.eqb (key x) k) xs with
       | [] => []
       | x :: _ => [x]
       end.
Proof.
  revert seen. induction xs as [|y r IH]; intros seen; simpl.
  - now destruct (existsb _ seen).
  - destruct (existsb (String.eqb (key y)) seen) eqn:E.
    + rewrite IH. destruct (existsb (String.eqb k) seen) eqn:Ek; auto.
      destruct (String.eqb (key y) k) eqn:Eyk; auto.
      apply String.eqb_eq in Eyk. congruence.
    + simpl. rewrite IH. simpl.
      destruct (String.eqb (key y) k) eqn:Eyk.
      * apply String.eqb_eq in Eyk. subst k. rewrite String.eqb_refl. simpl.
        now rewrite E.
      * rewrite String.eqb_sym, Eyk. simpl. reflexivity.
Qed.

End KeepFirst.

Lemma filter_subseq {A : Type} (f : A -> bool) xs : subseq (filter f xs) xs.
Proof.
  induction xs as [|x xs IH]; simpl; [constructor|].
  destruct (f x); [apply subseq_take | apply subseq_skip]; apply IH.
Qed.

Lemma subseq_trans {A : Type} (xs ys zs : list A) :
  subseq xs ys -> subseq ys zs -> subseq xs zs.
Proof.
  intros H1 H2. revert xs H1.
  induction H2 as [|z ys zs H2 IH|z ys zs H2 IH]; intros xs H1.
  - auto.
  - apply subseq_skip. auto.
  - inversion H1; subst.
    + apply subseq_skip. auto.
    + apply subseq_take. auto.
Qed.

Lemma NoDup_map_id (l : list string) : NoDup (map (fun x => x) l) -> NoDup l.
Proof. now rewrite map_id. Qed.

Lemma extract_skills_In text vocab sk :
  In sk (extract_skills text vocab) <->
  In sk vocab /\
  if (String.length sk <=? 3)%nat || String.eqb sk "r"
  then exists pre post,
         lower text = pre ++ sk ++ post /\
         word_boundary pre (sk ++ post) = true /\
         word_boundary (pre ++ sk) post = true
  else exists pre post, lower text = pre ++ sk ++ post.
Proof.
  unfold extract_skills. split.
  - intros H. apply keep_first_In in H. destruct H as [H _].
    apply filter_In in H. destruct H as [Hin Hm]. split; auto.
    unfold skill_matches in Hm.
    destruct ((String.length sk <=? 3)%nat || String.eqb sk "r").
    + now apply search_word_spec.
    + now apply contains_spec.
  - intros [Hin Hm].
    assert (Hk : In sk (map (fun x => x)
                (keep_first (fun x => x) [] (filter (skill_matches (lower text)) vocab)))).
    { apply keep_first_keys. split; [|simpl; tauto].
      rewrite map_id. apply filter_In. split; auto.
      unfold skill_matches.
      destruct ((String.length sk <=? 3)%nat || String.eqb sk "r").
      - now apply search_word_spec.
      - now apply contains_spec. }
    now rewrite map_id in Hk.
Qed.

(** C4. [extract_skills] lowercases the text; a vocabulary entry is
    reported exactly when it passes its test against the lowercased text:
    an occurrence with a word boundary on both sides for entries of at
    most 3 characters and for "r", plain substring containment for the
    longer ones.  The answer lists the reported entries in vocabulary
    order without repetition.  On "We use Python and R for data work" it
    is ["python"; "r"], and "r" does not match inside "for" or "work";
    nor does it behind an accented letter, which is a word character. *)
Theorem extract_skills_rule :
  (forall text vocab sk,
      In sk (extract_skills text vocab) <->
      In sk vocab /\
      if (String.length sk <=? 3)%nat || String.eqb sk "r"
      then exists pre post,
             lower text = pre ++ sk ++ post /\
             word_boundary pre (sk ++ post) = true /\
             word_boundary (pre ++ sk) post = true
      else exists pre post, lower text = pre ++ sk ++ post) /\
  (forall text vocab,
      NoDup (extract_skills text vocab) /\
      subseq (extract_skills text vocab) vocab) /\
  extract_skills "We use Python and R for data work" ["python"; "r"] = ["python"; "r"] /\
  extract_skills "We use Python and R for data work" SKILLS = ["python"; "r"] /\
  extract_skills "for" ["r"] = [] /\
  extract_skills "work" ["r"] = [] /\
  extract_skills ("Contact P" ++ String a_umlaut "r") SKILLS = [] /\
  extract_skills ("f" ++ String u_umlaut "r") ["r"] = [] /\
  extract_skills ("R" ++ String nbsp "and" ++ String nbsp "SQL") SKILLS = ["sql"; "r"].
Proof.
  split; [|split; [|repeat split; reflexivity]].
  - apply extract_skills_In.
  - intros text vocab. unfold extract_skills. split.
    + apply NoDup_map_id, keep_first_NoDup.
    + eapply subseq_trans; [apply keep_first_subseq | apply filter_subseq].
Qed.

(** C10. The entry "c++" has three characters, so it is searched between
    word boundaries; its last character is not a word character, so the
    boundary after it needs a word character right behind: whenever
    [extract_skills] reports "c++", the lowercased text has "c++" followed
    by a word character: a letter, a digit (or another numeric
    character) or an underscore.  In "we use c++" nothing follows and
    "c++" is not reported; in "c++x" it is, and so it is before an
    accented letter. *)
Theorem cpp_needs_word_char_after :
  (forall text vocab,
      In "c++" (extract_skills text vocab) ->
      exists pre c post,
        lower text = pre ++ "c++" ++ String c post /\ is_word c = true) /\
  ~ In "c++" (extract_skills "we use c++" SKILLS) /\
  ~ In "c++" (extract_skills "We use C++, Python and SQL." SKILLS) /\
  In "c++" (extract_skills "c++x" SKILLS) /\
  In "c++" (extract_skills ("C++" ++ String e_acute "") SKILLS) /\
  ~ In "c++" (extract_skills ("c++" ++ String nbsp "x") SKILLS).
Proof.
  split; [|split; [|split; [|split; [|split]]]].
  - intros text vocab H. apply extract_skills_In in H.
    destruct H as [_ H]. cbn in H.
    destruct H as (pre & post & Ht & _ & Hb).
    unfold word_boundary in Hb. rewrite last_char_app in Hb. cbn in Hb.
    destruct post as [|c post]; [discriminate|].
    exists pre, c, post. split; auto.
  - vm_compute. intros H. repeat (destruct H as [H|H]; [discriminate|]). exact H.
  - vm_compute. intros H. repeat (destruct H as [H|H]; [discriminate|]). exact H.
  - vm_compute. auto.
  - vm_compute. auto.
  - vm_compute. intros H. repeat (destruct H as [H|H]; [discriminate|]). exact H.
Qed.

(** ** The cleaning pass *)

Lemma filter_map_comm {A B : Type} (f : A -> B) (p : B -> bool) (xs : list A) :
  filter p (map f xs) = map f (filter (fun x => p (f x)) xs).
Proof.
  induction xs as [|x xs IH]; simpl; auto.
  destruct (p (f x)); simpl; now rewrite IH.
Qed.

Lemma subseq_map {A B : Type} (f : A -> B) (xs ys : list A) :
  subseq xs ys -> subseq (map f xs) (map f ys).
Proof.
  induction 1; simpl;
    [apply subseq_nil | apply subseq_skip | apply subseq_take]; auto.
Qed.

(** C3. The frame [clean_posts] returns has no URL twice.  For every URL
    [U], its rows of URL [U] are: none when no input row has URL [U] once
    cleaned, and otherwise exactly one, the row derived from the first
    such input row.  The rows come in input order: they are the rows
    derived from the input, some left out. *)
Theorem clean_posts_unique_urls (df : list JobPost) :
  NoDup (map (fun r => url (post r)) (clean_posts df)) /\
  (forall U,
      filter (fun r => String.eqb (url (post r)) U) (clean_posts df) =
      match filter (fun p => String.eqb (clean_text (url p)) U) df with
      | [] => []
      | p :: _ => [enrich (normalize_post p)]
      end) /\
  subseq (clean_posts df) (map (fun p => enrich (normalize_post p)) df).
Proof.
  unfold clean_posts, drop_duplicates_url. split; [|split].
  - rewrite map_map. cbn [enrich post]. apply keep_first_NoDup.
  - intros U. rewrite filter_map_comm. cbn [enrich post].
    rewrite keep_first_filter. cbn [existsb].
    rewrite filter_map_comm. cbn [normalize_post url].
    destruct (filter _ df); reflexivity.
  - rewrite <- (map_map normalize_post enrich).
    apply subseq_map, keep_first_subseq.
Qed.

(** ** Rounding to binary64 *)

(** The parser multiplies parsed numbers by constants and compares the
    products.  The facts below say that such numbers stay in [good], that
    on [good] the comparisons of [SpecFloat] are the comparisons of the
    ranks [ord], and that multiplying by a constant does not change the
    order.  They are read off [binary_round_aux]: shift the exact
    mantissa, round to nearest even, restore the canonical form. *)

Module RoundFacts.

Import Round.
Local Open Scope Z_scope.

(** The powers of two of the format, as literals for [lia]. *)
Ltac pow_lits :=
  change (2 ^ 53) with 9007199254740992 in *;
  change (2 ^ 52) with 4503599627370496 in *.

(** *** Number of binary digits *)

Lemma digits2_size p : digits2_pos p = Pos.size p.
Proof. induction p; simpl; congruence. Qed.

Lemma digits_bounds m :
  0 < m -> 1 <= Zdigits2 m /\ 2 ^ (Zdigits2 m - 1) <= m < 2 ^ Zdigits2 m.
Proof.
  destruct m as [|p|p]; try lia. intros _. cbn [Zdigits2].
  rewrite digits2_size.
  pose proof (Pos.size_gt p) as Hgt. pose proof (Pos.size_le p) as Hle.
  apply Pos2Z.pos_lt_pos in Hgt. apply Pos2Z.pos_le_pos in Hle.
  rewrite Pos2Z.inj_pow in Hgt, Hle.
  assert (Hs : 1 <= Z.pos (Pos.size p)) by lia.
  split; auto. split; auto.
  replace (Z.pos (Pos.size p)) with (Z.succ (Z.pos (Pos.size p) - 1)) in Hle by lia.
  rewrite Z.pow_succ_r in Hle by lia. lia.
Qed.

Lemma digits_le m k : 0 < m -> m < 2 ^ k -> Zdigits2 m <= k.
Proof.
  intros Hm Hk. destruct (digits_bounds m Hm) as (Hd & Hlo & _).
  destruct (Z_le_gt_dec (Zdigits2 m) k) as [|Hgt]; auto.
  assert (0 <= k). { destruct (Z_lt_le_dec k 0); auto. rewrite Z.pow_neg_r in Hk; lia. }
  assert (2 ^ k <= 2 ^ (Zdigits2 m - 1)) by (apply Z.pow_le_mono_r; lia). lia.
Qed.

Lemma digits_ge m k : 0 < m -> 2 ^ (k - 1) <= m -> k <= Zdigits2 m.
Proof.
  intros Hm Hk. destruct (digits_bounds m Hm) as (Hd & _ & Hhi).
  destruct (Z_le_gt_dec k (Zdigits2 m)) as [|Hgt]; auto.
  assert (2 ^ Zdigits2 m <= 2 ^ (k - 1)) by (apply Z.pow_le_mono_r; lia). lia.
Qed.

Lemma digits_nonneg m : 0 <= m -> 0 <= Zdigits2 m.
Proof. destruct m; simpl; lia. Qed.

(** *** Shifting a mantissa to the right *)

Lemma iter_pos_nat {A} (f : A -> A) p x :
  iter_pos f p x = Nat.iter (Pos.to_nat p) f x.
Proof.
  revert x. induction p as [p IH|p IH|]; intros x; cbn [iter_pos].
  - rewrite !IH. rewrite Pos2Nat.inj_xI.
    rewrite <- Nat.iter_succ_r. rewrite <- Nat.iter_add. f_equal. lia.
  - rewrite !IH. rewrite Pos2Nat.inj_xO. rewrite <- Nat.iter_add. f_equal. lia.
  - reflexivity.
Qed.

Lemma shr_1_eq m r s :
  0 <= m ->
  shr_1 (Build_shr_record m r s) = Build_shr_record (m / 2) (Z.odd m) (r || s).
Proof.
  intros Hm. destruct m as [|[p|p|]|p]; cbn [shr_1 Z.odd]; try lia; try reflexivity.
  - f_equal. rewrite Pos2Z.inj_xI. apply (Z.div_unique _ 2 _ 1); lia.
  - f_equal. rewrite Pos2Z.inj_xO. apply (Z.div_unique _ 2 _ 0); lia.
Qed.

Lemma shr_1_m mrs : 0 <= shr_m mrs -> shr_m (shr_1 mrs) = shr_m mrs / 2.
Proof.
  destruct mrs as [m r s]. cbn [shr_m]. intros Hm. now rewrite shr_1_eq.
Qed.

Lemma shr_iter_m k mrs :
  0 <= shr_m mrs ->
  shr_m (Nat.iter k shr_1 mrs) = shr_m mrs / 2 ^ Z.of_nat k.
Proof.
  intros Hm. induction k as [|k IH].
  - simpl. now rewrite Z.div_1_r.
  - rewrite Nat.iter_succ, shr_1_m.
    + rewrite IH. rewrite Nat2Z.inj_succ, Z.pow_succ_r by lia.
      rewrite Z.div_div by lia. f_equal. lia.
    + rewrite IH. apply Z.div_pos; lia.
Qed.

(** The round and sticky bits after [k] shifts of an exact mantissa say
    where [p / 2^k] lies. *)
Lemma shr_1_loc p k mrs :
  0 <= p -> 0 <= k ->
  shr_m mrs = p / 2 ^ k ->
  loc_of_shr_record mrs = loc_spec p k ->
  loc_of_shr_record (shr_1 mrs) = loc_spec p (k + 1).
Proof.
  intros Hp Hk Hm Hloc.
  assert (H2k : 0 < 2 ^ k) by (apply Z.pow_pos_nonneg; lia).
  assert (Hmod : p mod 2 ^ (k + 1) = p mod 2 ^ k + 2 ^ k * ((p / 2 ^ k) mod 2)).
  { rewrite Z.pow_add_r by lia. change (2 ^ 1) with 2.
    apply Z.rem_mul_r; lia. }
  assert (Hr : 0 <= p mod 2 ^ k < 2 ^ k) by (apply Z.mod_pos_bound; lia).
  assert (Hq : 0 <= p / 2 ^ k) by (apply Z.div_pos; lia).
  unfold loc_spec in *. rewrite Hmod. rewrite (Z.pow_add_r 2 k 1) by lia.
  change (2 ^ 1) with 2. rewrite Zmod_odd.
  destruct mrs as [m r s]. cbn [shr_m] in Hm. subst m.
  rewrite shr_1_eq by auto.
  remember (p / 2 ^ k) as q. remember (p mod 2 ^ k) as rem.
  assert (Hrs : orb r s = negb (rem =? 0)).
  { destruct (rem =? 0); destruct r, s; cbn in Hloc; try discriminate; reflexivity. }
  cbn [loc_of_shr_record]. rewrite Hrs. clear Hloc Hrs Hmod.
  destruct (Z.odd q); destruct (Z.eqb_spec rem 0) as [E|E]; cbn [negb].
  - destruct (Z.eqb_spec (rem + 2 ^ k * 1) 0); [lia|].
    destruct (Z.compare_spec (2 * (rem + 2 ^ k * 1)) (2 ^ k * 2)); try lia; reflexivity.
  - destruct (Z.eqb_spec (rem + 2 ^ k * 1) 0); [lia|].
    destruct (Z.compare_spec (2 * (rem + 2 ^ k * 1)) (2 ^ k * 2)); try lia; reflexivity.
  - destruct (Z.eqb_spec (rem + 2 ^ k * 0) 0); [reflexivity|lia].
  - destruct (Z.eqb_spec (rem + 2 ^ k * 0) 0); [lia|].
    destruct (Z.compare_spec (2 * (rem + 2 ^ k * 0)) (2 ^ k * 2)); try lia; reflexivity.
Qed.

Lemma shr_iter_loc p k :
  0 <= p ->
  let mrs := Nat.iter k shr_1 (Build_shr_record p false false) in
  shr_m mrs = p / 2 ^ Z.of_nat k /\
  loc_of_shr_record mrs = loc_spec p (Z.of_nat k).
Proof.
  intros Hp. induction k as [|k IH]; cbn zeta.
  - cbn. unfold loc_spec. rewrite Z.div_1_r, Z.mod_1_r. auto.
  - cbn zeta in IH. destruct IH as [IHm IHl]. split.
    + rewrite shr_iter_m by (cbn; auto). reflexivity.
    + rewrite Nat.iter_succ, Nat2Z.inj_succ. unfold Z.succ. apply shr_1_loc; auto. lia.
Qed.

(** Rounding with those bits is [rne]. *)
Lemma round_loc_spec p k :
  0 <= p -> 0 <= k ->
  round_nearest_even (p / 2 ^ k) (loc_spec p k) = rne p k.
Proof.
  intros Hp Hk. unfold loc_spec, rne.
  assert (H2k : 0 < 2 ^ k) by (apply Z.pow_pos_nonneg; lia).
  pose proof (Z.mod_pos_bound p (2 ^ k) H2k) as Hr.
  destruct (p mod 2 ^ k =? 0) eqn:E.
  - apply Z.eqb_eq in E. rewrite E. cbn [round_nearest_even].
    destruct (Z.compare_spec (2 * 0) (2 ^ k)); try lia; reflexivity.
  - cbn [round_nearest_even]. destruct (2 * (p mod 2 ^ k) ?= 2 ^ k); reflexivity.
Qed.



Lemma fexp_eq e : fexp F64.prec F64.emax e = Z.max (e - 53) (-1074).
Proof. reflexivity. Qed.

Lemma shr_record_of_loc_m m l : shr_m (shr_record_of_loc m l) = m.
Proof. destruct l as [|[]]; reflexivity. Qed.

(** *** The two stages of [binary_round_aux] *)

(** First stage: the mantissa is shifted to the exponent of its binade. *)
Lemma shr_fexp_spec m E l :
  0 <= m ->
  E <= fexp F64.prec F64.emax (Zdigits2 m + E) ->
  exists mrs,
    shr_fexp F64.prec F64.emax m E l = (mrs, fexp F64.prec F64.emax (Zdigits2 m + E)) /\
    shr_m mrs = m / 2 ^ (fexp F64.prec F64.emax (Zdigits2 m + E) - E) /\
    (l = loc_Exact ->
     loc_of_shr_record mrs = loc_spec m (fexp F64.prec F64.emax (Zdigits2 m + E) - E)).
Proof.
  intros Hm Hn. unfold shr_fexp, shr.
  remember (fexp F64.prec F64.emax (Zdigits2 m + E) - E) as n eqn:En.
  destruct n as [|pn|pn]; [| |lia].
  - exists (shr_record_of_loc m l). split; [f_equal; lia|]. split.
    + now rewrite shr_record_of_loc_m, Z.div_1_r.
    + intros ->. cbn. unfold loc_spec. now rewrite Z.mod_1_r.
  - exists (iter_pos shr_1 pn (shr_record_of_loc m l)). split; [f_equal; lia|].
    rewrite iter_pos_nat. split.
    + rewrite shr_iter_m by (now rewrite shr_record_of_loc_m).
      now rewrite shr_record_of_loc_m, positive_nat_Z.
    + intros ->. cbn [shr_record_of_loc].
      destruct (shr_iter_loc m (Pos.to_nat pn) Hm) as [_ H].
      now rewrite positive_nat_Z in H.
Qed.

(** Second stage: see [finish]. *)
Lemma round_aux_finish m E l :
  binary_round_aux F64.prec F64.emax false m E l =
  let '(mrs, e) := shr_fexp F64.prec F64.emax m E l in
  finish (round_nearest_even (shr_m mrs) (loc_of_shr_record mrs)) e.
Proof. reflexivity. Qed.

(** A rounded mantissa of at most 53 bits (2^53 after a carry) becomes a
    number of [good] whose rank is read off the mantissa and exponent. *)
Lemma finish_spec m1 e1 :
  -1074 <= e1 ->
  0 <= m1 <= 2 ^ 53 ->
  (-1074 < e1 -> 2 ^ 52 <= m1) ->
  good (finish m1 e1) = true /\
  ord (finish m1 e1) = Z.min ord_inf ((e1 + 1074) * 2 ^ 52 + m1).
Proof.
  intros He Hm Hnorm.
  pow_lits.
  unfold ord_inf. change (2047 * 2 ^ 52) with 9218868437227405312.
  destruct (Z.eq_dec m1 0) as [->|Hm0].
  - assert (e1 = -1074) by lia. subst e1. vm_compute. auto.
  - destruct (Z.eq_dec m1 9007199254740992) as [->|Hm1].
    + unfold finish, shr_fexp. change (Zdigits2 9007199254740992) with 54.
      rewrite fexp_eq. replace (Z.max (54 + e1 - 53) (-1074) - e1) with 1 by lia.
      cbn [shr shr_record_of_loc iter_pos shr_1 shr_m].
      change (F64.emax - F64.prec) with 971.
      destruct (Z.leb_spec (e1 + 1) 971).
      * cbn [good ord]. unfold bounded, canonical_mantissa.
        change (Z.pos (digits2_pos 4503599627370496)) with 53.
        rewrite fexp_eq. change (F64.emax - F64.prec) with 971.
        split.
        -- apply andb_true_iff. split; [apply Z.eqb_eq|apply Z.leb_le]; lia.
        -- change (2 ^ 52) with 4503599627370496. lia.
      * cbn [good ord]. unfold ord_inf. change (2047 * 2 ^ 52) with 9218868437227405312.
        split; auto. lia.
    + assert (Hpos : 0 < m1) by lia.
      assert (Hd : Zdigits2 m1 <= 53) by (apply digits_le; [lia|change (2^53) with 9007199254740992; lia]).
      pose proof (digits_bounds m1 Hpos) as (Hd1 & _).
      unfold finish, shr_fexp. rewrite fexp_eq.
      assert (Hshr : forall mrs, shr mrs e1 (Z.max (Zdigits2 m1 + e1 - 53) (-1074) - e1) = (mrs, e1)).
      { intros mrs. unfold shr.
        destruct (Z.max (Zdigits2 m1 + e1 - 53) (-1074) - e1) eqn:En; auto. lia. }
      rewrite Hshr. cbn [shr_record_of_loc shr_m].
      destruct m1 as [|pm|pm]; try lia.
      change (F64.emax - F64.prec) with 971.
      destruct (Z.leb_spec e1 971).
      * cbn [good ord]. unfold bounded, canonical_mantissa.
        rewrite fexp_eq. change (F64.emax - F64.prec) with 971.
        change (Z.pos (digits2_pos pm)) with (Zdigits2 (Z.pos pm)).
        split.
        -- apply andb_true_iff. split; [apply Z.eqb_eq|apply Z.leb_le]; try lia.
           destruct (Z.eq_dec e1 (-1074)); [lia|].
           assert (53 <= Zdigits2 (Z.pos pm)).
           { apply digits_ge; [lia|]. change (2 ^ (53 - 1)) with 4503599627370496. lia. }
           lia.
        -- change (2 ^ 52) with 4503599627370496. lia.
      * cbn [good ord]. unfold ord_inf. change (2047 * 2 ^ 52) with 9218868437227405312.
        split; auto. lia.
Qed.

Lemma round_nearest_even_range q l :
  q <= round_nearest_even q l <= q + 1.
Proof.
  destruct l as [|[]]; cbn; try lia. destruct (Z.even q); lia.
Qed.

(** The shifted mantissa has at most 53 bits, and exactly 53 above the
    subnormal range. *)
Lemma stage1_bounds m E :
  0 <= m ->
  E <= fexp F64.prec F64.emax (Zdigits2 m + E) ->
  let e1 := fexp F64.prec F64.emax (Zdigits2 m + E) in
  let q := m / 2 ^ (e1 - E) in
  0 <= q < 2 ^ 53 /\ (-1074 < e1 -> 2 ^ 52 <= q).
Proof.
  intros Hm Hn e1 q. subst e1 q. rewrite fexp_eq in *.
  set (d := Zdigits2 m) in *.
  set (n := Z.max (d + E - 53) (-1074) - E) in *.
  assert (Hn0 : 0 <= n) by lia.
  assert (H2n : 0 < 2 ^ n) by (apply Z.pow_pos_nonneg; lia).
  destruct (Z.eq_dec m 0) as [->|Hm0].
  - rewrite Z.div_0_l by lia. cbn in d. subst d. split; [split; [lia|reflexivity]|].
    intros H. lia.
  - assert (Hpos : 0 < m) by lia.
    pose proof (digits_bounds m Hpos) as (Hd1 & Hlo & Hhi). fold d in Hd1, Hlo, Hhi.
    split; [split|].
    + apply Z.div_pos; lia.
    + apply Z.div_lt_upper_bound; auto.
      rewrite <- Z.pow_add_r by lia.
      assert (2 ^ d <= 2 ^ (n + 53)) by (apply Z.pow_le_mono_r; lia). lia.
    + intros Hnorm. apply Z.div_le_lower_bound; auto.
      rewrite <- Z.pow_add_r by lia.
      replace (n + 52) with (d - 1) by lia. auto.
Qed.

(** Rounding a non-negative mantissa that has enough bits gives a number
    of [good], whatever the position of the discarded part. *)
Lemma round_aux_good m E l :
  0 <= m ->
  E <= fexp F64.prec F64.emax (Zdigits2 m + E) ->
  good (binary_round_aux F64.prec F64.emax false m E l) = true.
Proof.
  intros Hm Hn. rewrite round_aux_finish.
  destruct (shr_fexp_spec m E l Hm Hn) as (mrs & -> & Hq & _).
  pose proof (stage1_bounds m E Hm Hn) as [Hb Hnorm]. cbn zeta in Hb, Hnorm.
  rewrite <- Hq in Hb, Hnorm.
  pose proof (round_nearest_even_range (shr_m mrs) (loc_of_shr_record mrs)) as Hr.
  apply finish_spec.
  - rewrite fexp_eq. lia.
  - lia.
  - intros H. specialize (Hnorm H). lia.
Qed.

(** Rounding an exact mantissa: the rank of the result is [raw_ord],
    capped at infinity. *)
Lemma round_aux_exact p E :
  0 <= p ->
  E <= fexp F64.prec F64.emax (Zdigits2 p + E) ->
  good (binary_round_aux F64.prec F64.emax false p E loc_Exact) = true /\
  ord (binary_round_aux F64.prec F64.emax false p E loc_Exact) =
    Z.min ord_inf (raw_ord p E).
Proof.
  intros Hp Hn. split; [now apply round_aux_good|].
  rewrite round_aux_finish.
  destruct (shr_fexp_spec p E loc_Exact Hp Hn) as (mrs & -> & Hq & Hl).
  specialize (Hl eq_refl).
  pose proof (stage1_bounds p E Hp Hn) as [Hb Hnorm]. cbn zeta in Hb, Hnorm.
  rewrite <- Hq in Hb, Hnorm.
  pose proof (round_nearest_even_range (shr_m mrs) (loc_of_shr_record mrs)) as Hr.
  destruct (finish_spec (round_nearest_even (shr_m mrs) (loc_of_shr_record mrs))
              (fexp F64.prec F64.emax (Zdigits2 p + E))) as [_ Ho].
  - rewrite fexp_eq. lia.
  - lia.
  - intros H. specialize (Hnorm H). lia.
  - rewrite Ho. unfold raw_ord. rewrite Hl, Hq, round_loc_spec by (auto; lia).
    reflexivity.
Qed.


(** *** Order on [good] *)

(** What [bounded] says in numbers. *)
Lemma bounded_facts m e :
  bounded F64.prec F64.emax m e = true ->
  -1074 <= e <= 971 /\ Z.pos m < 2 ^ 53 /\ (-1074 < e -> 2 ^ 52 <= Z.pos m).
Proof.
  unfold bounded, canonical_mantissa. rewrite andb_true_iff, fexp_eq.
  change (F64.emax - F64.prec) with 971.
  change (Z.pos (digits2_pos m)) with (Zdigits2 (Z.pos m)).
  intros [Hc He]. apply Z.eqb_eq in Hc. apply Z.leb_le in He.
  pose proof (digits_bounds (Z.pos m) eq_refl) as (Hd & Hlo & Hhi).
  split; [lia|]. split.
  - assert (2 ^ Zdigits2 (Z.pos m) <= 2 ^ 53) by (apply Z.pow_le_mono_r; lia). lia.
  - intros Hn. assert (Zdigits2 (Z.pos m) = 53) by lia.
    replace 52 with (Zdigits2 (Z.pos m) - 1) by lia. auto.
Qed.

Lemma good_ord_range x : good x = true -> 0 <= ord x <= ord_inf.
Proof.
  unfold ord_inf. change (2047 * 2 ^ 52) with 9218868437227405312.
  destruct x as [[]|[]| |[] m e]; cbn [good ord]; try discriminate; try lia.
  - unfold ord_inf. change (2047 * 2 ^ 52) with 9218868437227405312. lia.
  - intros H. apply bounded_facts in H.
    pow_lits. lia.
Qed.

(** On [good], [SFcompare] compares ranks. *)
Lemma compare_ord x y :
  good x = true -> good y = true ->
  SFcompare x y = Some (ord x ?= ord y).
Proof.
  unfold ord_inf.
  destruct x as [[]|[]| |[] m1 e1]; cbn [good]; try discriminate;
  destruct y as [[]|[]| |[] m2 e2]; cbn [good]; try discriminate;
  intros Hx Hy; cbn [SFcompare ord]; unfold ord_inf;
  change (2047 * 2 ^ 52) with 9218868437227405312;
  try apply bounded_facts in Hx; try apply bounded_facts in Hy;
  pow_lits; f_equal; symmetry;
  try (match goal with
       | |- (?a ?= ?b) = Eq => destruct (Z.compare_spec a b); try reflexivity; lia
       | |- (?a ?= ?b) = Lt => destruct (Z.compare_spec a b); try reflexivity; lia
       | |- (?a ?= ?b) = Gt => destruct (Z.compare_spec a b); try reflexivity; lia
       end).
  destruct (Z.compare_spec e1 e2).
  - subst e2. rewrite Z.add_compare_mono_l. reflexivity.
  - apply Z.compare_lt_iff. lia.
  - apply Z.compare_gt_iff. lia.
Qed.

Lemma leb_ord x y :
  good x = true -> good y = true ->
  (F64.leb x y = true <-> ord x <= ord y).
Proof.
  intros Hx Hy. unfold F64.leb, SFleb. rewrite compare_ord by auto.
  destruct (Z.compare_spec (ord x) (ord y)); split; intros; try lia; try discriminate; auto.
Qed.

Lemma ltb_ord x y :
  good x = true -> good y = true ->
  (F64.ltb x y = true <-> ord x < ord y).
Proof.
  intros Hx Hy. unfold F64.ltb, SFltb. rewrite compare_ord by auto.
  destruct (Z.compare_spec (ord x) (ord y)); split; intros; try lia; try discriminate; auto.
Qed.

(** *** Rounding to nearest even is monotone *)

Lemma rne_range p k : p / 2 ^ k <= rne p k <= p / 2 ^ k + 1.
Proof.
  unfold rne. destruct (2 * (p mod 2 ^ k) ?= 2 ^ k); try lia.
  destruct (Z.even (p / 2 ^ k)); lia.
Qed.

Lemma rne_mono p1 p2 k :
  0 <= k -> p1 <= p2 -> rne p1 k <= rne p2 k.
Proof.
  intros Hk Hp.
  assert (H2k : 0 < 2 ^ k) by (apply Z.pow_pos_nonneg; lia).
  pose proof (Z.div_le_mono p1 p2 (2 ^ k) H2k Hp) as Hq.
  pose proof (rne_range p1 k) as R1. pose proof (rne_range p2 k) as R2.
  destruct (Z.eq_dec (p1 / 2 ^ k) (p2 / 2 ^ k)) as [Heq|Hne]; [|lia].
  pose proof (Z.div_mod p1 (2 ^ k)) as D1. pose proof (Z.div_mod p2 (2 ^ k)) as D2.
  assert (Hr : p1 mod 2 ^ k <= p2 mod 2 ^ k) by (rewrite Heq in D1; lia).
  unfold rne. rewrite Heq.
  destruct (Z.compare_spec (2 * (p1 mod 2 ^ k)) (2 ^ k));
  destruct (Z.compare_spec (2 * (p2 mod 2 ^ k)) (2 ^ k));
  destruct (Z.even (p2 / 2 ^ k)); lia.
Qed.

Lemma rne_scale p k j :
  0 <= k -> 0 <= j -> rne (p * 2 ^ j) (k + j) = rne p k.
Proof.
  intros Hk Hj.
  assert (H2k : 0 < 2 ^ k) by (apply Z.pow_pos_nonneg; lia).
  assert (H2j : 0 < 2 ^ j) by (apply Z.pow_pos_nonneg; lia).
  unfold rne. rewrite Z.pow_add_r by lia.
  rewrite Z.div_mul_cancel_r by lia.
  rewrite Z.mul_mod_distr_r by lia.
  rewrite Z.mul_assoc.
  rewrite <- (Zmult_compare_compat_r (2 * (p mod 2 ^ k)) (2 ^ k) (2 ^ j)) by lia.
  reflexivity.
Qed.

Lemma digits_scale p j :
  0 < p -> 0 <= j -> Zdigits2 (p * 2 ^ j) = Zdigits2 p + j.
Proof.
  intros Hp Hj.
  assert (H2j : 0 < 2 ^ j) by (apply Z.pow_pos_nonneg; lia).
  pose proof (digits_bounds p Hp) as (Hd & Hlo & Hhi).
  apply Z.le_antisymm.
  - apply digits_le; [lia|]. rewrite Z.pow_add_r by lia. nia.
  - apply digits_ge; [lia|].
    replace (Zdigits2 p + j - 1) with (Zdigits2 p - 1 + j) by lia.
    rewrite Z.pow_add_r by lia. nia.
Qed.

Lemma digits_mono p1 p2 : 0 < p1 -> p1 <= p2 -> Zdigits2 p1 <= Zdigits2 p2.
Proof.
  intros H1 H2. pose proof (digits_bounds p1 H1) as (Hd & Hlo & Hhi).
  apply digits_ge; lia.
Qed.

(** [raw_ord] depends on the value [p * 2^E] only. *)
Lemma raw_ord_scale p E j :
  0 < p -> 0 <= j ->
  E <= fexp F64.prec F64.emax (Zdigits2 p + E) ->
  raw_ord (p * 2 ^ j) (E - j) = raw_ord p E.
Proof.
  intros Hp Hj Hn. unfold raw_ord. rewrite digits_scale by auto.
  replace (Zdigits2 p + j + (E - j)) with (Zdigits2 p + E) by lia.
  f_equal.
  replace (fexp F64.prec F64.emax (Zdigits2 p + E) - (E - j))
    with (fexp F64.prec F64.emax (Zdigits2 p + E) - E + j) by lia.
  apply rne_scale; lia.
Qed.

(** At one exponent, a larger mantissa has a larger rank once rounded. *)
Lemma raw_ord_mono p1 p2 E :
  0 < p1 -> p1 <= p2 ->
  E <= fexp F64.prec F64.emax (Zdigits2 p1 + E) ->
  raw_ord p1 E <= raw_ord p2 E.
Proof.
  intros Hp1 Hp Hn1.
  pose proof (digits_mono p1 p2 Hp1 Hp) as Hd.
  assert (Hn2 : E <= fexp F64.prec F64.emax (Zdigits2 p2 + E))
    by (rewrite !fexp_eq in *; lia).
  pose proof (stage1_bounds p1 E ltac:(lia) Hn1) as [Hb1 _].
  pose proof (stage1_bounds p2 E ltac:(lia) Hn2) as [_ Hb2].
  cbn zeta in Hb1, Hb2. unfold raw_ord.
  pose proof (rne_range p1 (fexp F64.prec F64.emax (Zdigits2 p1 + E) - E)) as R1.
  pose proof (rne_range p2 (fexp F64.prec F64.emax (Zdigits2 p2 + E) - E)) as R2.
  destruct (Z.eq_dec (fexp F64.prec F64.emax (Zdigits2 p1 + E))
                     (fexp F64.prec F64.emax (Zdigits2 p2 + E))) as [He|He].
  - rewrite <- He. apply Z.add_le_mono_l. apply rne_mono; lia.
  - rewrite !fexp_eq in *.
    pow_lits.
    assert (Hlt : Z.max (Zdigits2 p1 + E - 53) (-1074) < Z.max (Zdigits2 p2 + E - 53) (-1074)) by lia.
    specialize (Hb2 ltac:(lia)). lia.
Qed.


(** *** Products with a constant *)

Lemma product_exponent_ok p E :
  2 ^ 52 <= p -> E <= fexp F64.prec F64.emax (Zdigits2 p + E).
Proof.
  intros Hp. assert (53 <= Zdigits2 p).
  { apply digits_ge; [|exact Hp]. change (2 ^ 52) with 4503599627370496 in Hp. lia. }
  rewrite fexp_eq. lia.
Qed.

Lemma mul_finite m e mc ec :
  2 ^ 52 <= Z.pos mc ->
  good (F64.mul (S754_finite false m e) (S754_finite false mc ec)) = true /\
  ord (F64.mul (S754_finite false m e) (S754_finite false mc ec)) =
    Z.min ord_inf (raw_ord (Z.pos m * Z.pos mc) (e + ec)).
Proof.
  intros Hc. unfold F64.mul, SFmul. cbn [xorb]. rewrite Pos2Z.inj_mul.
  apply round_aux_exact; [lia|]. apply product_exponent_ok. nia.
Qed.

(** A number of [good] times a normal positive constant is in [good]. *)
Lemma mul_good x c :
  normal c = true -> good x = true -> good (F64.mul x c) = true.
Proof.
  destruct c as [| | |[] mc ec]; cbn [normal]; try discriminate.
  rewrite andb_true_iff. intros [_ Hc]. apply Z.leb_le in Hc.
  destruct x as [[]|[]| |[] m e]; cbn [good]; try discriminate; intros Hx.
  - reflexivity.
  - reflexivity.
  - now apply mul_finite.
Qed.

(** Multiplying by a normal positive constant keeps the order. *)
Lemma mul_mono x y c :
  normal c = true -> good x = true -> good y = true ->
  ord x <= ord y -> ord (F64.mul x c) <= ord (F64.mul y c).
Proof.
  intros Hc Hx Hy Hxy.
  pose proof (good_ord_range _ (mul_good x c Hc Hx)) as Rx.
  pose proof (good_ord_range _ (mul_good y c Hc Hy)) as Ry.
  destruct c as [| | |[] mc ec]; cbn [normal] in Hc; try discriminate.
  apply andb_true_iff in Hc. destruct Hc as [_ Hc]. apply Z.leb_le in Hc.
  destruct x as [[]|[]| |[] m1 e1]; cbn [good] in Hx; try discriminate;
  destruct y as [[]|[]| |[] m2 e2]; cbn [good] in Hy; try discriminate;
  try solve [ unfold F64.mul in *; cbn [SFmul xorb ord] in *; unfold ord_inf in *;
              change (2047 * 2 ^ 52) with 9218868437227405312 in *;
              try apply bounded_facts in Hx; try apply bounded_facts in Hy;
              pow_lits; lia ].
  - destruct (mul_finite m1 e1 mc ec Hc) as [_ ->].
    destruct (mul_finite m2 e2 mc ec Hc) as [_ ->].
    apply Z.min_le_compat_l.
    apply bounded_facts in Hx, Hy. cbn [ord] in Hxy.
    assert (He : e1 <= e2).
    { pow_lits. lia. }
    assert (Hj : 0 <= e2 - e1) by lia.
    assert (H2j : 0 < 2 ^ (e2 - e1)) by (apply Z.pow_pos_nonneg; lia).
    rewrite <- (raw_ord_scale (Z.pos m2 * Z.pos mc) (e2 + ec) (e2 - e1));
      [|lia|lia|apply product_exponent_ok; nia].
    replace (e2 + ec - (e2 - e1)) with (e1 + ec) by lia.
    apply raw_ord_mono; [lia| |apply product_exponent_ok; nia].
    destruct (Z.eq_dec e1 e2) as [->|Hne].
    + rewrite Z.sub_diag. change (2 ^ 0) with 1.
      change (2 ^ 52) with 4503599627370496 in *. nia.
    + assert (2 ^ 1 <= 2 ^ (e2 - e1)) by (apply Z.pow_le_mono_r; lia).
      change (2 ^ 1) with 2 in *.
      destruct Hy as (_ & _ & Hy). specialize (Hy ltac:(lia)).
      destruct Hx as (_ & Hx & _).
      pow_lits.
      assert (Z.pos m1 <= Z.pos m2 * 2 ^ (e2 - e1)) by nia. nia.
Qed.

(** *** The quotient of two positive integers *)

Lemma div_integers_good (p den : positive) :
  good (F64.div (S754_finite false p 0) (S754_finite false den 0)) = true.
Proof.
  unfold F64.div, SFdiv, SFdiv_core_binary. cbn [xorb].
  rewrite !Z.add_0_r, Z.sub_0_r. change (0 - 0) with 0.
  pose proof (digits_bounds (Z.pos p) eq_refl) as (Hd1 & Hlo1 & _).
  pose proof (digits_bounds (Z.pos den) eq_refl) as (Hd2 & _ & Hhi2).
  remember (Zdigits2 (Z.pos p)) as d1 eqn:Ed1.
  remember (Zdigits2 (Z.pos den)) as d2 eqn:Ed2.
  clear Ed1 Ed2.
  pose proof (Z.le_min_r (fexp F64.prec F64.emax (d1 - d2)) 0) as He'.
  pose proof (Z.le_min_l (fexp F64.prec F64.emax (d1 - d2)) 0) as He2.
  rewrite fexp_eq in He2 at 2.
  remember (Z.min (fexp F64.prec F64.emax (d1 - d2)) 0) as e' eqn:Ee'.
  clear Ee'.
  remember (match 0 - e' with
            | 0 => Z.pos p
            | Z.pos _ => Z.shiftl (Z.pos p) (0 - e')
            | Z.neg _ => 0
            end) as m' eqn:Em'.
  assert (Hm' : m' = Z.pos p * 2 ^ (0 - e')).
  { subst m'. destruct (0 - e') eqn:E; try lia.
    now rewrite Z.shiftl_mul_pow2 by lia. }
  clear Em'.
  pose proof (Z_div_mod m' (Z.pos den) eq_refl) as Hdm.
  destruct (Z.div_eucl m' (Z.pos den)) as [q r] eqn:Eqr.
  destruct Hdm as [Hdm Hr].
  assert (H2s : 0 < 2 ^ (0 - e')) by (apply Z.pow_pos_nonneg; lia).
  assert (Hq : 0 <= q) by nia.
  apply round_aux_good; auto.
  rewrite fexp_eq.
  destruct (Z_le_gt_dec e' (-1074)) as [|Hgt]; [lia|].
  assert (He3 : e' <= d1 - d2 - 53) by lia.
  assert (Hbig : 2 ^ 52 * Z.pos den <= m').
  { rewrite Hm'.
    assert (H : 2 ^ (52 + d2) <= 2 ^ (d1 - 1 + (0 - e'))) by (apply Z.pow_le_mono_r; lia).
    rewrite !Z.pow_add_r in H by lia.
    assert (2 ^ 52 * Z.pos den <= 2 ^ 52 * 2 ^ d2)
      by (apply Z.mul_le_mono_nonneg_l; [discriminate|lia]).
    assert (2 ^ (d1 - 1) * 2 ^ (0 - e') <= Z.pos p * 2 ^ (0 - e'))
      by (apply Z.mul_le_mono_nonneg_r; lia).
    lia. }
  assert (Hq52 : 2 ^ 52 <= q).
  { destruct (Z_lt_le_dec q (2 ^ 52)) as [Hlt|]; auto.
    assert (Z.pos den * q <= Z.pos den * (2 ^ 52 - 1))
      by (apply Z.mul_le_mono_nonneg_l; lia).
    lia. }
  assert (53 <= Zdigits2 q).
  { apply digits_ge; [|exact Hq52]. change (2 ^ 52) with 4503599627370496 in Hq52. lia. }
  lia.
Qed.

(** [float(lit)] is in [good]. *)
Lemma of_decimal_good n k : good (F64.of_decimal n k) = true.
Proof.
  destruct n; cbn [F64.of_decimal]; [reflexivity|apply div_integers_good].
Qed.

(** *** The rank determines the number; times one is the identity *)

Lemma ord_inj x y : good x = true -> good y = true -> ord x = ord y -> x = y.
Proof.
  destruct x as [[]|[]| |[] m1 e1]; cbn [good]; try discriminate;
  destruct y as [[]|[]| |[] m2 e2]; cbn [good]; try discriminate;
  intros Hx Hy; cbn [ord]; unfold ord_inf;
  change (2047 * 2 ^ 52) with 9218868437227405312;
  try apply bounded_facts in Hx; try apply bounded_facts in Hy;
  pow_lits;
  intros H; try reflexivity; try lia.
  assert (e1 = e2) by lia. subst e2.
  assert (Z.pos m1 = Z.pos m2) by lia. congruence.
Qed.

Lemma rne_0 p : rne p 0 = p.
Proof.
  unfold rne. change (2 ^ 0) with 1. rewrite Z.div_1_r, Z.mod_1_r. reflexivity.
Qed.

Lemma canonical_exponent m e :
  bounded F64.prec F64.emax m e = true ->
  fexp F64.prec F64.emax (Zdigits2 (Z.pos m) + e) = e.
Proof.
  unfold bounded, canonical_mantissa. rewrite andb_true_iff.
  intros [H _]. now apply Z.eqb_eq in H.
Qed.

Lemma mul_one x : good x = true -> F64.mul x (F64.of_Z 1) = x.
Proof.
  intros Hx. apply ord_inj; auto.
  - apply mul_good; auto.
  - pose proof (good_ord_range x Hx) as Hr.
    destruct x as [[]|[]| |[] m e]; cbn [good] in Hx; try discriminate;
      try reflexivity.
    change (F64.of_Z 1) with (S754_finite false 4503599627370496 (-52)).
    destruct (mul_finite m e 4503599627370496 (-52)) as [_ ->]; [discriminate|].
    pose proof (canonical_exponent m e Hx) as Hc.
    change (Z.pos 4503599627370496) with (2 ^ 52).
    replace (e + -52) with (e - 52) by lia.
    rewrite raw_ord_scale by (try rewrite Hc; lia).
    unfold raw_ord. rewrite Hc, Z.sub_diag, rne_0.
    cbn [ord] in *. lia.
Qed.


End RoundFacts.

Import Round RoundFacts.

(** ** The number scan *)

Lemma string_length_app a b : String.length (a ++ b) = (String.length a + String.length b)%nat.
Proof. induction a; simpl; auto. Qed.

Lemma string_app_assoc a b c : (a ++ b) ++ c = a ++ (b ++ c).
Proof. induction a; simpl; congruence. Qed.

Lemma span_spec p s a b :
  span p s = (a, b) ->
  s = a ++ b /\ all_chars p a = true /\ head_is p b = false.
Proof.
  revert a b. induction s as [|c r IH]; intros a b; simpl.
  - intros [= <- <-]. auto.
  - destruct (p c) eqn:Ec.
    + destruct (span p r) as [t rest]. intros [= <- <-].
      destruct (IH t rest eq_refl) as (-> & Ha & Hb).
      simpl. rewrite Ec. auto.
    + intros [= <- <-]. simpl. auto.
Qed.

Lemma fraction_at_spec s fp r2 :
  fraction_at s = (fp, r2) ->
  s = fraction_text fp ++ r2 /\
  all_chars is_digit fp = true /\
  (head_is is_digit s = false -> head_is is_digit r2 = false) /\
  (fp = "" -> starts_fraction r2 = false).
Proof.
  unfold fraction_at. destruct s as [|c r].
  - intros [= <- <-]. cbn. auto.
  - destruct (Ascii.eqb c ".") eqn:Ec.
    + apply Ascii.eqb_eq in Ec. subst c.
      destruct (span is_digit r) as [t rest] eqn:Es.
      apply span_spec in Es. destruct Es as (-> & Ht & Hrest).
      destruct t as [|d t].
      * intros [= <- <-]. cbn. repeat split; auto.
      * intros [= <- <-]. cbn [fraction_text]. repeat split; auto. discriminate.
    + intros [= <- <-]. cbn. rewrite Ec. auto.
Qed.

Lemma number_at_none s : number_at s = None <-> head_is is_digit s = false.
Proof.
  unfold number_at. destruct s as [|c r]; cbn [span head_is].
  - tauto.
  - destruct (is_digit c).
    + destruct (span is_digit r) as [t rest].
      destruct (fraction_at rest) as [fp r2].
      destruct (span is_space r2) as [ws r3].
      destruct (starts_with "k" r3); split; discriminate.
    + tauto.
Qed.

(** Every match is the greedy reading of a decimal number, whitespace and
    an optional "k". *)
Lemma number_at_sound s v len :
  number_at s = Some (v, len) ->
  exists ip fp ws rest,
    s = ip ++ fraction_text fp ++ ws ++ rest /\
    ip <> "" /\
    all_chars is_digit ip = true /\
    all_chars is_digit fp = true /\
    all_chars is_space ws = true /\
    head_is is_digit (fraction_text fp ++ ws ++ rest) = false /\
    head_is is_digit (ws ++ rest) = false /\
    (fp = "" -> starts_fraction (ws ++ rest) = false) /\
    head_is is_space rest = false /\
    (v, len) =
      if starts_with "k" rest
      then (F64.mul (float_of_literal ip fp) (F64.of_Z 1000),
            S (String.length (ip ++ fraction_text fp ++ ws)))
      else (float_of_literal ip fp, String.length (ip ++ fraction_text fp ++ ws)).
Proof.
  unfold number_at.
  destruct (span is_digit s) as [ip r1] eqn:E1.
  apply span_spec in E1. destruct E1 as (Hs & Hip & Hr1).
  destruct ip as [|c0 ip0]; [discriminate|].
  destruct (fraction_at r1) as [fp r2] eqn:E2.
  apply fraction_at_spec in E2. destruct E2 as (Hr1e & Hfp & Hr2 & Hfr).
  destruct (span is_space r2) as [ws r3] eqn:E3.
  apply span_spec in E3. destruct E3 as (Hr2e & Hws & Hr3).
  specialize (Hr2 Hr1).
  intros H. exists (String c0 ip0), fp, ws, r3.
  assert (Hlen : (String.length s - String.length r3)%nat =
                 String.length (String c0 ip0 ++ fraction_text fp ++ ws)).
  { rewrite Hs, Hr1e, Hr2e. rewrite <- !string_app_assoc.
    rewrite (string_length_app _ r3). lia. }
  rewrite Hlen in H.
  repeat split; auto.
  - now rewrite Hs, Hr1e, Hr2e.
  - discriminate.
  - now rewrite <- Hr2e, <- Hr1e.
  - now rewrite <- Hr2e.
  - intros Hf. rewrite <- Hr2e. auto.
  - destruct (starts_with "k" r3); now injection H as <- <-.
Qed.

Lemma number_at_len s v len : number_at s = Some (v, len) -> (1 <= len)%nat.
Proof.
  intros H. apply number_at_sound in H.
  destruct H as (ip & fp & ws & rest & _ & Hip & _ & _ & _ & _ & _ & _ & _ & H).
  destruct ip as [|c ip]; [congruence|].
  destruct (starts_with "k" rest); injection H as _ ->; simpl; lia.
Qed.

Lemma scan_numbers_drop n s : scan_numbers n s = scan_numbers 0 (drop n s).
Proof.
  revert n. induction s as [|c r IH]; intros n.
  - destruct n; reflexivity.
  - destruct n as [|n]; [reflexivity|]. cbn [scan_numbers drop]. apply IH.
Qed.

(** The scan tries the positions from left to right and resumes behind
    each match. *)
Lemma scan_numbers_eq s :
  scan_numbers 0 s =
  match s with
  | EmptyString => []
  | String _ r =>
      match number_at s with
      | Some (v, len) => v :: scan_numbers 0 (drop len s)
      | None => scan_numbers 0 r
      end
  end.
Proof.
  destruct s as [|c r]; [reflexivity|]. cbn [scan_numbers].
  destruct (number_at (String c r)) as [[v len]|] eqn:E; [|reflexivity].
  apply number_at_len in E. destruct len as [|len]; [lia|].
  cbn [Nat.pred drop]. now rewrite scan_numbers_drop.
Qed.

(** ** The candidates are ordinary numbers *)

Lemma consts_normal :
  normal (F64.of_Z 1000) = true /\ normal (F64.of_Z 2080) = true /\
  normal (F64.of_Z 52) = true /\ normal (F64.of_Z 12) = true /\
  normal (F64.of_Z 1) = true.
Proof. repeat split; reflexivity. Qed.

Lemma number_at_good s v len : number_at s = Some (v, len) -> good v = true.
Proof.
  intros H. apply number_at_sound in H.
  destruct H as (ip & fp & ws & rest & _ & _ & _ & _ & _ & _ & _ & _ & _ & H).
  destruct (starts_with "k" rest); injection H as -> _.
  - apply mul_good; [reflexivity|apply of_decimal_good].
  - apply of_decimal_good.
Qed.

Lemma scan_numbers_good n s : Forall (fun v => good v = true) (scan_numbers n s).
Proof.
  revert n. induction s as [|c r IH]; intros n; cbn [scan_numbers].
  - constructor.
  - destruct n as [|n]; [|apply IH].
    destruct (number_at (String c r)) as [[v len]|] eqn:E; [|apply IH].
    constructor; [|apply IH]. eapply number_at_good; eauto.
Qed.



Lemma fmin_fmax_good a b :
  good a = true -> good b = true ->
  good (fmin a b) = true /\ good (fmax a b) = true /\
  F64.leb (fmin a b) (fmax a b) = true /\
  ((fmin a b, fmax a b) = (a, b) \/ (fmin a b, fmax a b) = (b, a)).
Proof.
  intros Ha Hb. unfold fmin, fmax.
  pose proof (ltb_ord a b Ha Hb) as Hab. pose proof (ltb_ord b a Hb Ha) as Hba.
  destruct (F64.ltb b a) eqn:E1; destruct (F64.ltb a b) eqn:E2.
  - assert (Z.lt (ord a) (ord b)) by (apply Hab; auto).
    assert (Z.lt (ord b) (ord a)) by (apply Hba; auto). lia.
  - repeat split; auto.
    apply leb_ord; auto. assert (Z.lt (ord b) (ord a)) by (apply Hba; auto). lia.
  - repeat split; auto.
    apply leb_ord; auto. assert (Z.lt (ord a) (ord b)) by (apply Hab; auto). lia.
  - assert (Heq : a = b).
    { apply ord_inj; auto.
      destruct (Z.lt_trichotomy (ord a) (ord b)) as [H|[H|H]]; auto.
      - apply Hab in H. congruence.
      - apply Hba in H. congruence. }
    subst b. repeat split; auto. apply leb_ord; auto. lia.
Qed.

Lemma first_two_good nums lo hi :
  Forall (fun v => good v = true) nums ->
  first_two nums = Some (lo, hi) ->
  good lo = true /\ good hi = true /\ F64.leb lo hi = true.
Proof.
  intros Hall. destruct nums as [|a [|b rest]]; cbn [first_two]; [discriminate| |].
  - intros [= <- <-]. inversion Hall; subst. repeat split; auto.
    apply leb_ord; auto. lia.
  - intros [= <- <-]. inversion Hall as [|? ? Ha Hall']; subst.
    inversion Hall' as [|? ? Hb _]; subst.
    destruct (fmin_fmax_good a b Ha Hb) as (H1 & H2 & H3 & _). auto.
Qed.

Lemma to_yearly_factor unit x :
  good x = true -> to_yearly unit x = F64.mul x (F64.of_Z (yearly_factor unit)).
Proof.
  intros Hx. unfold to_yearly, yearly_factor.
  destruct (String.eqb unit "hour"); auto.
  destruct (String.eqb unit "week"); auto.
  destruct (String.eqb unit "month"); auto.
  symmetry. now apply mul_one.
Qed.

Lemma yearly_factor_normal unit : normal (F64.of_Z (yearly_factor unit)) = true.
Proof.
  unfold yearly_factor.
  destruct (String.eqb unit "hour"); [reflexivity|].
  destruct (String.eqb unit "week"); [reflexivity|].
  destruct (String.eqb unit "month"); reflexivity.
Qed.

Lemma to_yearly_good unit x : good x = true -> good (to_yearly unit x) = true.
Proof.
  intros Hx. rewrite to_yearly_factor by auto.
  apply mul_good; auto. apply yearly_factor_normal.
Qed.

Lemma to_yearly_mono unit x y :
  good x = true -> good y = true -> F64.leb x y = true ->
  F64.leb (to_yearly unit x) (to_yearly unit y) = true.
Proof.
  intros Hx Hy Hxy. apply leb_ord; try now apply to_yearly_good.
  rewrite !to_yearly_factor by auto.
  apply mul_mono; auto using yearly_factor_normal. now apply leb_ord.
Qed.

Create HintDb yearly.
#[export] Hint Resolve to_yearly_good to_yearly_mono : yearly.

Lemma yearly_bounds_good txt lo hi :
  yearly_bounds txt = Some (lo, hi) ->
  good lo = true /\ good hi = true /\ F64.leb lo hi = true.
Proof.
  unfold yearly_bounds.
  destruct (first_two (scan_numbers 0 txt)) as [[a b]|] eqn:E; [|discriminate].
  intros [= <- <-].
  destruct (first_two_good _ _ _ (scan_numbers_good 0 txt) E) as (Ha & Hb & Hab).
  repeat split; auto with yearly.
Qed.

Lemma detect_unit_cases txt :
  detect_unit txt = "hour" \/ detect_unit txt = "month" \/
  detect_unit txt = "week" \/ detect_unit txt = "year".
Proof.
  unfold detect_unit.
  destruct (_ || _ || _); auto.
  destruct (_ || _); auto.
  destruct (_ || _); auto.
Qed.

(** Bounds that pass the plausibility test are within its range. *)
Lemma plausible_range lo hi :
  good lo = true -> good hi = true ->
  implausible lo hi = false ->
  F64.leb (F64.of_Z 15000) lo = true /\ F64.leb hi (F64.of_Z 700000) = true.
Proof.
  intros Hlo Hhi. unfold implausible. rewrite orb_false_iff. intros [H1 H2].
  assert (G1 : good (F64.of_Z 15000) = true) by reflexivity.
  assert (G2 : good (F64.of_Z 700000) = true) by reflexivity.
  split; apply leb_ord; auto.
  - destruct (Z_le_gt_dec (ord (F64.of_Z 15000)) (ord lo)); auto.
    assert (F64.ltb lo (F64.of_Z 15000) = true) by (apply ltb_ord; auto; lia).
    congruence.
  - destruct (Z_le_gt_dec (ord hi) (ord (F64.of_Z 700000))); auto.
    assert (F64.ltb (F64.of_Z 700000) hi = true) by (apply ltb_ord; auto; lia).
    congruence.
Qed.

(** ** The salary parser *)

Lemma parse_salary_cases s :
  (clean_text s = "" /\ parse_salary_to_yearly_usd s = (None, None, "unknown")) \/
  (clean_text s <> "" /\
   exists txt, txt = salary_text (clean_text s) /\
   match yearly_bounds txt with
   | None => parse_salary_to_yearly_usd s = (None, None, detect_unit txt)
   | Some (lo, hi) =>
       (implausible lo hi = true /\
        parse_salary_to_yearly_usd s = (None, None, detect_unit txt)) \/
       (implausible lo hi = false /\
        parse_salary_to_yearly_usd s = (Some lo, Some hi, detect_unit txt))
   end).
Proof.
  unfold parse_salary_to_yearly_usd.
  destruct (String.eqb_spec (clean_text s) "") as [E|E]; [left; auto|right].
  split; auto. exists (salary_text (clean_text s)). split; auto.
  destruct (yearly_bounds (salary_text (clean_text s))) as [[lo hi]|]; auto.
  destruct (implausible lo hi); auto.
Qed.

(** C9. Whatever the text, [parse_salary_to_yearly_usd] returns the two
    bounds both absent or both present; when present they are ordered,
    the lower one is at least 15000 and the upper one at most 700000; the
    unit is one of "hour", "week", "month", "year", "unknown", and it is
    "unknown" exactly when the whitespace-normalised text is empty. *)
Theorem parse_salary_invariant s lo hi unit :
  parse_salary_to_yearly_usd s = (lo, hi, unit) ->
  ((lo = None /\ hi = None) \/
   (exists a b,
      lo = Some a /\ hi = Some b /\
      F64.leb a b = true /\
      F64.leb (F64.of_Z 15000) a = true /\
      F64.leb b (F64.of_Z 700000) = true)) /\
  In unit ["hour"; "week"; "month"; "year"; "unknown"] /\
  (unit = "unknown" <-> clean_text s = "").
Proof.
  intros H.
  destruct (parse_salary_cases s) as [[Hc Hp]|(Hc & txt & _ & Hp)].
  - rewrite Hp in H. injection H as <- <- <-. split; [left; auto|].
    split; [simpl; tauto|]. tauto.
  - assert (Hu : In (detect_unit txt) ["hour"; "week"; "month"; "year"; "unknown"] /\
                 (detect_unit txt = "unknown" <-> clean_text s = "")).
    { destruct (detect_unit_cases txt) as [E|[E|[E|E]]]; rewrite E;
        (split; [simpl; tauto|split; [discriminate|tauto]]). }
    destruct (yearly_bounds txt) as [[a b]|] eqn:Eb.
    + destruct (yearly_bounds_good _ _ _ Eb) as (Ga & Gb & Hab).
      destruct Hp as [[Hi Hp]|[Hi Hp]]; rewrite Hp in H; injection H as <- <- <-.
      * split; [left; auto|exact Hu].
      * split; [|exact Hu]. right. exists a, b.
        destruct (plausible_range a b Ga Gb Hi). auto.
    + rewrite Hp in H. injection H as <- <- <-. split; [left; auto|exact Hu].
Qed.

Lemma parse_salary_invariant_witness :
  exists a b,
    Some (F64.of_Z 83200) = Some a /\ Some (F64.of_Z 83200) = Some b /\
    F64.leb a b = true /\
    F64.leb (F64.of_Z 15000) a = true /\
    F64.leb b (F64.of_Z 700000) = true.
Proof.
  destruct (parse_salary_invariant "$40/hr" (Some (F64.of_Z 83200)) (Some (F64.of_Z 83200)) "hour")
    as [[[H _]|H] _].
  - vm_compute. reflexivity.
  - discriminate.
  - exact H.
Defined.

(** C1. When [parse_salary_to_yearly_usd] returns bounds, they are the
    smaller and the larger of the first two candidates of the text (the
    one candidate twice when it is alone), each times the factor of the
    detected unit: 2080 for "hour", 52 for "week", 12 for "month", 1 for
    "year".  The examples of the specification: "$50,000 - $60,000" gives
    (50000, 60000, "year"), "$40/hr" gives (83200, 83200, "hour"),
    "90k-110k" gives (90000, 110000, "year"), the empty text gives
    (absent, absent, "unknown"); a non-empty text with none of the unit
    keywords has unit "year", as "50000-60000". *)
Theorem parse_salary_conversion :
  (forall s lo hi unit,
      parse_salary_to_yearly_usd s = (Some lo, Some hi, unit) ->
      exists a b,
        first_two (scan_numbers 0 (salary_text (clean_text s))) = Some (a, b) /\
        unit = detect_unit (salary_text (clean_text s)) /\
        lo = F64.mul a (F64.of_Z (yearly_factor unit)) /\
        hi = F64.mul b (F64.of_Z (yearly_factor unit))) /\
  (yearly_factor "hour" = 2080%Z /\ yearly_factor "week" = 52%Z /\
   yearly_factor "month" = 12%Z /\ yearly_factor "year" = 1%Z) /\
  parse_salary_to_yearly_usd "$50,000 - $60,000" =
    (Some (F64.of_Z 50000), Some (F64.of_Z 60000), "year") /\
  parse_salary_to_yearly_usd "$40/hr" =
    (Some (F64.of_Z 83200), Some (F64.of_Z 83200), "hour") /\
  parse_salary_to_yearly_usd "90k-110k" =
    (Some (F64.of_Z 90000), Some (F64.of_Z 110000), "year") /\
  parse_salary_to_yearly_usd "" = (None, None, "unknown") /\
  (forall s lo hi unit,
      parse_salary_to_yearly_usd s = (lo, hi, unit) ->
      clean_text s <> "" ->
      (forall kw,
          In kw ["/hr"; "per hour"; "hour"; "/month"; "per month"; "/week"; "per week"] ->
          contains kw (salary_text (clean_text s)) = false) ->
      unit = "year") /\
  parse_salary_to_yearly_usd "50000-60000" =
    (Some (F64.of_Z 50000), Some (F64.of_Z 60000), "year").
Proof.
  split; [|split; [repeat split; reflexivity|]].
  - intros s lo hi unit H.
    destruct (parse_salary_cases s) as [[Hc Hp]|(Hc & txt & -> & Hp)].
    + rewrite Hp in H. discriminate.
    + unfold yearly_bounds in Hp.
      destruct (first_two (scan_numbers 0 (salary_text (clean_text s))))
        as [[a b]|] eqn:E.
      * destruct (first_two_good _ _ _ (scan_numbers_good 0 _) E) as (Ga & Gb & _).
        destruct Hp as [[_ Hp]|[_ Hp]]; rewrite Hp in H; [discriminate|].
        injection H as <- <- <-. exists a, b.
        repeat split; auto using to_yearly_factor.
      * rewrite Hp in H. discriminate.
  - split; [vm_compute; reflexivity|].
    split; [vm_compute; reflexivity|].
    split; [vm_compute; reflexivity|].
    split; [vm_compute; reflexivity|].
    split; [|vm_compute; reflexivity].
    intros s lo hi unit H Hc Hkw.
    destruct (parse_salary_cases s) as [[Hc' _]|(_ & txt & -> & Hp)]; [congruence|].
    assert (Hu : unit = detect_unit (salary_text (clean_text s))).
    { destruct (yearly_bounds (salary_text (clean_text s))) as [[a b]|].
      - destruct Hp as [[_ Hp]|[_ Hp]]; rewrite Hp in H; now injection H.
      - rewrite Hp in H. now injection H. }
    rewrite Hu. unfold detect_unit.
    rewrite !Hkw by (simpl; tauto). reflexivity.
Qed.

(** C2. When the yearly bounds of a non-empty text have a lower bound
    below 15000 or an upper bound above 700000, the parser returns
    (absent, absent, unit) with the detected unit.  "$500/hr" has yearly
    bounds 1040000 and gives (absent, absent, "hour"); "$250/hr" has
    yearly bounds 520000, passes, and gives (520000, 520000, "hour"). *)
Theorem parse_salary_gate :
  (forall s lo hi,
      clean_text s <> "" ->
      yearly_bounds (salary_text (clean_text s)) = Some (lo, hi) ->
      F64.ltb lo (F64.of_Z 15000) = true \/ F64.ltb (F64.of_Z 700000) hi = true ->
      parse_salary_to_yearly_usd s =
        (None, None, detect_unit (salary_text (clean_text s)))) /\
  yearly_bounds (salary_text (clean_text "$500/hr")) =
    Some (F64.of_Z 1040000, F64.of_Z 1040000) /\
  parse_salary_to_yearly_usd "$500/hr" = (None, None, "hour") /\
  yearly_bounds (salary_text (clean_text "$250/hr")) =
    Some (F64.of_Z 520000, F64.of_Z 520000) /\
  parse_salary_to_yearly_usd "$250/hr" =
    (Some (F64.of_Z 520000), Some (F64.of_Z 520000), "hour").
Proof.
  split; [|split; [|split; [|split]]; vm_compute; reflexivity].
  intros s lo hi Hc Hb Hgate.
  unfold parse_salary_to_yearly_usd.
  destruct (String.eqb_spec (clean_text s) ""); [congruence|].
  rewrite Hb. unfold implausible.
  destruct Hgate as [-> | ->]; [reflexivity|].
  now rewrite orb_true_r.
Qed.

(** ** Candidates and the mean *)

(** C8 as worded fails: in "90 k" the number 90 is not immediately
    followed by "k", a space stands between them, and the candidate is
    still 90000; the scan that wants the suffix right behind the number
    reads 90. *)
Lemma scan_k_after_space :
  scan_numbers 0 "90 k" = [F64.of_Z 90000] /\
  scan_numbers_spec 0 "90 k" = [F64.of_Z 90] /\
  scan_numbers 0 "90 k" <> scan_numbers_spec 0 "90 k" /\
  parse_salary_to_yearly_usd "90 k" =
    (Some (F64.of_Z 90000), Some (F64.of_Z 90000), "year").
Proof.
  split; [vm_compute; reflexivity|].
  split; [vm_compute; reflexivity|].
  split; [vm_compute; discriminate|].
  vm_compute; reflexivity.
Qed.

(** C8, amended.  A match of the scan is a decimal number (digits, then
    optionally a point and digits, read greedily), the whitespace behind
    it, and a "k" if one comes next; its candidate is the number, times
    1000 exactly when that "k" is there, so when the number is followed,
    after optional whitespace, by "k".  Matches start at digits only; the
    scan goes left to right and resumes behind each match, so candidates
    come in order of appearance.  With one candidate both bounds are it;
    with two or more, the bounds are the first two candidates, smaller
    first. *)
Theorem scan_candidates_rule :
  (forall s v len,
      number_at s = Some (v, len) ->
      exists ip fp ws rest,
        s = ip ++ fraction_text fp ++ ws ++ rest /\
        ip <> "" /\
        all_chars is_digit ip = true /\
        all_chars is_digit fp = true /\
        all_chars is_space ws = true /\
        head_is is_digit (fraction_text fp ++ ws ++ rest) = false /\
        head_is is_digit (ws ++ rest) = false /\
        (fp = "" -> starts_fraction (ws ++ rest) = false) /\
        head_is is_space rest = false /\
        (v, len) =
          if starts_with "k" rest
          then (F64.mul (float_of_literal ip fp) (F64.of_Z 1000),
                S (String.length (ip ++ fraction_text fp ++ ws)))
          else (float_of_literal ip fp, String.length (ip ++ fraction_text fp ++ ws))) /\
  (forall s, number_at s = None <-> head_is is_digit s = false) /\
  (forall s,
      scan_numbers 0 s =
      match s with
      | EmptyString => []
      | String _ r =>
          match number_at s with
          | Some (v, len) => v :: scan_numbers 0 (drop len s)
          | None => scan_numbers 0 r
          end
      end) /\
  (forall txt a, scan_numbers 0 txt = [a] -> first_two (scan_numbers 0 txt) = Some (a, a)) /\
  (forall txt a b rest,
      scan_numbers 0 txt = a :: b :: rest ->
      exists lo hi,
        first_two (scan_numbers 0 txt) = Some (lo, hi) /\
        F64.leb lo hi = true /\
        ((lo, hi) = (a, b) \/ (lo, hi) = (b, a))) /\
  scan_numbers 0 "90 k" = [F64.of_Z 90000] /\
  scan_numbers 0 "1.5 to 2.5k, 7 k" =
    [F64.of_decimal 15 1; F64.of_Z 2500; F64.of_Z 7000] /\
  first_two [F64.of_Z 110000; F64.of_Z 90000; F64.of_Z 5] =
    Some (F64.of_Z 90000, F64.of_Z 110000).
Proof.
  split; [exact number_at_sound|].
  split; [exact number_at_none|].
  split; [exact scan_numbers_eq|].
  split; [|split].
  - intros txt a H. now rewrite H.
  - intros txt a b rest H.
    pose proof (scan_numbers_good 0 txt) as Hall. rewrite H in *.
    inversion Hall as [|? ? Ha Hall']; subst.
    inversion Hall' as [|? ? Hb _]; subst.
    destruct (fmin_fmax_good a b Ha Hb) as (_ & _ & Hle & Hsw).
    exists (fmin a b), (fmax a b). auto.
  - split; [vm_compute; reflexivity|].
    split; vm_compute; reflexivity.
Qed.

Lemma parse_salary_both s :
  (fst (fst (parse_salary_to_yearly_usd s)) = None /\
   snd (fst (parse_salary_to_yearly_usd s)) = None) \/
  (exists a b,
      fst (fst (parse_salary_to_yearly_usd s)) = Some a /\
      snd (fst (parse_salary_to_yearly_usd s)) = Some b).
Proof.
  destruct (parse_salary_cases s) as [[_ Hp]|(_ & txt & _ & Hp)].
  - rewrite Hp. left. auto.
  - destruct (yearly_bounds txt) as [[a b]|].
    + destruct Hp as [[_ Hp]|[_ Hp]]; rewrite Hp; cbn; eauto.
    + rewrite Hp. left. auto.
Qed.

(** C7. In every row of [clean_posts], [salary_mid_usd_year] is the
    mean [(min + max) / 2] of the two salary bounds when both are present,
    and absent, not zero, when one of them is absent.  Bounds 50000 and
    70000 give 60000. *)
Theorem salary_mid_is_mean :
  (forall df r,
      In r (clean_posts df) ->
      (forall a b,
          salary_min_usd_year r = Some a ->
          salary_max_usd_year r = Some b ->
          salary_mid_usd_year r = Some (F64.div (F64.add a b) (F64.of_Z 2))) /\
      (salary_min_usd_year r = None \/ salary_max_usd_year r = None ->
       salary_mid_usd_year r = None)) /\
  row_mean (Some (F64.of_Z 50000)) (Some (F64.of_Z 70000)) = Some (F64.of_Z 60000) /\
  map (fun r => (salary_min_usd_year r, salary_max_usd_year r, salary_mid_usd_year r))
      (clean_posts [sample_post "$50,000 - $70,000" "https://x.test/1";
                    sample_post "competitive" "https://x.test/2"]) =
    [(Some (F64.of_Z 50000), Some (F64.of_Z 70000), Some (F64.of_Z 60000));
     (None, None, None)].
Proof.
  split; [|split; vm_compute; reflexivity].
  intros df r Hin. unfold clean_posts in Hin. apply in_map_iff in Hin.
  destruct Hin as (p & <- & _). cbn [enrich salary_min_usd_year salary_max_usd_year salary_mid_usd_year].
  destruct (parse_salary_both (salary_raw p)) as [[-> ->]|(a & b & -> & ->)].
  - split; [discriminate|reflexivity].
  - split.
    + intros a' b' [= <-] [= <-]. reflexivity.
    + intros [H|H]; discriminate.
Qed.

(** * Further properties *)

(** ** Text normalisation *)

Lemma collapse_single_spaced b s : single_spaced (collapse_ws b s) = true.
Proof.
  revert b. induction s as [|c r IH]; intros b; cbn [collapse_ws]; [reflexivity|].
  destruct (is_space c) eqn:Ec.
  - destruct b; [apply IH|].
    cbn [single_spaced]. rewrite IH, andb_true_r.
    change (is_space " ") with true. cbv iota. rewrite Ascii.eqb_refl. cbn [andb].
    clear IH. induction r as [|d r IHr]; cbn [collapse_ws head_is]; [reflexivity|].
    destruct (is_space d) eqn:Ed; [apply IHr|]. cbn [head_is]. now rewrite Ed.
  - cbn [single_spaced]. rewrite Ec, IH. reflexivity.
Qed.

Lemma collapse_true_head s : head_is is_space (collapse_ws true s) = false.
Proof.
  induction s as [|d r IHr]; cbn [collapse_ws head_is]; [reflexivity|].
  destruct (is_space d) eqn:Ed; [apply IHr|]. cbn [head_is]. exact Ed.
Qed.

Lemma single_spaced_tail c r : single_spaced (String c r) = true -> single_spaced r = true.
Proof. cbn [single_spaced]. rewrite andb_true_iff. tauto. Qed.

Lemma lstrip_single_spaced s : single_spaced s = true -> single_spaced (lstrip s) = true.
Proof.
  induction s as [|c r IH]; cbn [lstrip]; auto.
  destruct (is_space c); auto. intros H. apply IH. eapply single_spaced_tail; eauto.
Qed.

Lemma lstrip_head s : head_is is_space (lstrip s) = false.
Proof.
  induction s as [|c r IH]; cbn [lstrip]; auto.
  destruct (is_space c) eqn:E; auto.
Qed.

Lemma all_space_spec s : all_space s = true <-> non_space_chars s = "".
Proof.
  unfold all_space. induction s as [|c r IH]; cbn [all_chars non_space_chars]; [tauto|].
  destruct (is_space c); cbn [andb]; [exact IH|]. split; discriminate.
Qed.

Lemma rstrip_single_spaced s : single_spaced s = true -> single_spaced (rstrip s) = true.
Proof.
  induction s as [|c r IH]; cbn [rstrip]; auto.
  destruct (all_space (String c r)) eqn:Ea; auto.
  intros H. cbn [single_spaced] in *. apply andb_true_iff in H. destruct H as [Hc Hr].
  rewrite IH by auto. rewrite andb_true_r.
  destruct (is_space c) eqn:Ec; auto.
  apply andb_true_iff in Hc. destruct Hc as [Hc Hh]. rewrite Hc. cbn [andb].
  destruct r as [|d r']; auto. cbn [head_is] in *.
  cbn [rstrip]. destruct (all_space (String d r')); auto.
Qed.

Lemma rstrip_head s : head_is is_space s = false -> head_is is_space (rstrip s) = false.
Proof.
  destruct s as [|c r]; cbn [rstrip head_is]; auto.
  destruct (all_space (String c r)); auto.
Qed.

Lemma rstrip_empty s : rstrip s = "" -> all_space s = true.
Proof.
  destruct s as [|c r]; cbn [rstrip]; auto.
  destruct (all_space (String c r)); auto. discriminate.
Qed.

Lemma rstrip_last s prev :
  (rstrip s = "" /\ last_char prev (rstrip s) = prev) \/
  (exists c, last_char prev (rstrip s) = Some c /\ is_space c = false).
Proof.
  revert prev. induction s as [|c r IH]; intros prev; cbn [rstrip].
  - left. auto.
  - destruct (all_space (String c r)) eqn:Ea; [left; auto|].
    right. cbn [last_char].
    destruct (IH (Some c)) as [[He Hl]|H]; auto.
    exists c. split; auto.
    apply rstrip_empty in He. unfold all_space in *. cbn [all_chars] in Ea.
    rewrite He, andb_true_r in Ea. exact Ea.
Qed.

Lemma rstrip_end s : ends_with_space (rstrip s) = false.
Proof.
  unfold ends_with_space.
  destruct (rstrip_last s None) as [[_ ->]|(c & -> & Hc)]; auto.
Qed.

(** [clean_text] returns tidy text. *)
Lemma clean_text_tidy s : tidy (clean_text s) = true.
Proof.
  unfold tidy, clean_text, strip.
  rewrite rstrip_head by apply lstrip_head.
  rewrite rstrip_end.
  rewrite rstrip_single_spaced; auto.
  apply lstrip_single_spaced, collapse_single_spaced.
Qed.

Lemma collapse_fix b s :
  single_spaced s = true ->
  (b = true -> head_is is_space s = false) ->
  collapse_ws b s = s.
Proof.
  revert b. induction s as [|c r IH]; intros b Hs Hb; cbn [collapse_ws]; auto.
  cbn [single_spaced head_is] in *. apply andb_true_iff in Hs. destruct Hs as [Hc Hr].
  destruct (is_space c) eqn:Ec.
  - destruct b; [specialize (Hb eq_refl); discriminate|].
    apply andb_true_iff in Hc. destruct Hc as [Hc Hh].
    apply Ascii.eqb_eq in Hc. subst c. f_equal. apply IH; auto.
    intros _. now apply negb_true_iff.
  - f_equal. apply IH; auto. discriminate.
Qed.

Lemma lstrip_fix s : head_is is_space s = false -> lstrip s = s.
Proof. destruct s as [|c r]; cbn [lstrip head_is]; auto. now intros ->. Qed.

Lemma all_chars_last p s prev :
  all_chars p s = true ->
  match prev with Some c => p c | None => false end = true \/ s <> "" ->
  match last_char prev s with Some c => p c | None => false end = true.
Proof.
  revert prev. induction s as [|c r IH]; intros prev Ha Hp; cbn [last_char].
  - destruct Hp; congruence.
  - cbn [all_chars] in Ha. apply andb_true_iff in Ha. destruct Ha as [Hc Hr].
    apply IH; auto.
Qed.

Lemma rstrip_fix s : ends_with_space s = false -> rstrip s = s.
Proof.
  unfold ends_with_space.
  assert (G : forall prev,
             match last_char prev s with Some c => is_space c | None => false end = false ->
             rstrip s = s).
  { induction s as [|c r IH]; intros prev H; cbn [rstrip]; auto.
    destruct (all_space (String c r)) eqn:Ea.
    - pose proof (all_chars_last is_space (String c r) prev Ea) as Hl.
      rewrite Hl in H; [discriminate|right; discriminate].
    - f_equal. apply (IH (Some c)). exact H. }
  apply G.
Qed.

Lemma tidy_fix s : tidy s = true -> clean_text s = s.
Proof.
  unfold tidy, clean_text, strip. rewrite !andb_true_iff, !negb_true_iff.
  intros [[Hh He] Hs].
  rewrite collapse_fix by (auto; discriminate).
  rewrite lstrip_fix by auto. now apply rstrip_fix.
Qed.

Lemma collapse_non_space b s : non_space_chars (collapse_ws b s) = non_space_chars s.
Proof.
  revert b. induction s as [|c r IH]; intros b; cbn [collapse_ws non_space_chars]; auto.
  destruct (is_space c) eqn:Ec.
  - destruct b; [apply IH|]. cbn [non_space_chars].
    change (is_space " ") with true. cbv iota. apply IH.
  - cbn [non_space_chars]. rewrite Ec. f_equal. apply IH.
Qed.

Lemma lstrip_non_space s : non_space_chars (lstrip s) = non_space_chars s.
Proof.
  induction s as [|c r IH]; cbn [lstrip non_space_chars]; auto.
  destruct (is_space c) eqn:Ec; auto. cbn [non_space_chars]. now rewrite Ec.
Qed.

Lemma rstrip_non_space s : non_space_chars (rstrip s) = non_space_chars s.
Proof.
  induction s as [|c r IH]; cbn [rstrip]; auto.
  destruct (all_space (String c r)) eqn:Ea.
  - apply all_space_spec in Ea. now rewrite Ea.
  - cbn [non_space_chars]. now rewrite IH.
Qed.

Lemma clean_text_non_space s : non_space_chars (clean_text s) = non_space_chars s.
Proof.
  unfold clean_text, strip.
  now rewrite rstrip_non_space, lstrip_non_space, collapse_non_space.
Qed.

Lemma all_space_no_head s :
  all_space s = true -> head_is is_space s = false -> s = "".
Proof.
  destruct s as [|c r]; auto. unfold all_space. cbn [all_chars head_is].
  intros H1 H2. rewrite H2 in H1. discriminate.
Qed.

Lemma clean_text_empty_iff s : clean_text s = "" <-> all_space s = true.
Proof.
  split.
  - intros H. apply all_space_spec. rewrite <- clean_text_non_space, H. reflexivity.
  - intros H. apply all_space_no_head.
    + apply all_space_spec. rewrite clean_text_non_space. now apply all_space_spec.
    + pose proof (clean_text_tidy s) as Ht. unfold tidy in Ht.
      rewrite !andb_true_iff, !negb_true_iff in Ht. tauto.
Qed.

(** X1. [clean_text] is idempotent, and the texts it returns unchanged
    are exactly the tidy ones: no whitespace at either end, and inside
    only single spaces.  A no-break space is whitespace: a text with one
    is not tidy, and [clean_text] puts a space in its place. *)
Theorem clean_text_fixpoints :
  (forall s, clean_text (clean_text s) = clean_text s) /\
  (forall s, clean_text s = s <-> tidy s = true) /\
  tidy ("a" ++ String nbsp "b") = false /\
  clean_text ("a" ++ String nbsp "b") = "a b" /\
  clean_text (String nbsp ("a" ++ String nbsp (String nbsp "b"))) = "a b".
Proof.
  split; [|split; [|split; [|split]; reflexivity]].
  - intros s. apply tidy_fix, clean_text_tidy.
  - intros s. split.
    + intros H. rewrite <- H. apply clean_text_tidy.
    + apply tidy_fix.
Qed.

Lemma collapse_head b s :
  b = false \/ head_is is_space s = false ->
  head_is is_space (collapse_ws b s) = head_is is_space s.
Proof.
  destruct s as [|c r]; cbn [collapse_ws head_is]; auto.
  destruct (is_space c) eqn:Ec.
  - intros [->|H]; [reflexivity|discriminate].
  - intros _. cbn [head_is]. exact Ec.
Qed.

Lemma words_collapse b s : words (collapse_ws b s) = words s.
Proof.
  revert b. induction s as [|c r IH]; intros b; cbn [collapse_ws words]; auto.
  destruct (is_space c) eqn:Ec.
  - destruct b; [apply IH|]. cbn [words]. change (is_space " ") with true. cbv iota. apply IH.
  - cbn [words]. rewrite Ec, IH, collapse_head by auto. reflexivity.
Qed.

Lemma words_lstrip s : words (lstrip s) = words s.
Proof.
  induction s as [|c r IH]; cbn [lstrip]; auto.
  destruct (is_space c) eqn:Ec; auto. cbn [words]. now rewrite Ec.
Qed.

Lemma words_all_space s : all_space s = true -> words s = [].
Proof.
  unfold all_space. induction s as [|c r IH]; cbn [all_chars words]; auto.
  destruct (is_space c); cbn [andb]; [exact IH|discriminate].
Qed.

Lemma rstrip_head_eq s :
  all_space s = false -> head_is is_space (rstrip s) = head_is is_space s.
Proof.
  destruct s as [|c r]; cbn [rstrip head_is]; auto. now intros ->.
Qed.

Lemma words_rstrip s : words (rstrip s) = words s.
Proof.
  induction s as [|c r IH]; cbn [rstrip]; auto.
  destruct (all_space (String c r)) eqn:Ea.
  - rewrite (words_all_space _ Ea). reflexivity.
  - cbn [words]. rewrite IH. destruct (is_space c) eqn:Ec; auto.
    destruct (all_space r) eqn:Er.
    + rewrite (words_all_space r Er).
      destruct r as [|d r']; auto. cbn [rstrip]. rewrite Er. cbn [head_is].
      unfold all_space in Er. cbn [all_chars] in Er. apply andb_true_iff in Er.
      destruct Er as [-> _]. reflexivity.
    + now rewrite rstrip_head_eq.
Qed.

Lemma words_clean_text s : words (clean_text s) = words s.
Proof.
  unfold clean_text, strip. now rewrite words_rstrip, words_lstrip, words_collapse.
Qed.

Lemma concat_cons_char c w ws :
  String.concat " " (String c w :: ws) = String c (String.concat " " (w :: ws)).
Proof. destruct ws; reflexivity. Qed.

Lemma ends_with_space_tail c d r :
  ends_with_space (String c (String d r)) = ends_with_space (String d r).
Proof. reflexivity. Qed.

Lemma single_spaced_join s :
  single_spaced s = true -> ends_with_space s = false ->
  s = (if head_is is_space s then " " else "") ++ String.concat " " (words s) /\
  (words s = [] -> s = "").
Proof.
  induction s as [|c r IH]; intros Hs He; [split; reflexivity|].
  pose proof (single_spaced_tail _ _ Hs) as Hr.
  cbn [single_spaced] in Hs. apply andb_true_iff in Hs. destruct Hs as [Hc _].
  cbn [head_is words].
  destruct (is_space c) eqn:Ec.
  - apply andb_true_iff in Hc. destruct Hc as [Hc Hh].
    apply Ascii.eqb_eq in Hc. subst c. apply negb_true_iff in Hh.
    destruct r as [|d r']; [discriminate He|].
    rewrite ends_with_space_tail in He.
    destruct (IH Hr He) as [IH1 IH2]. rewrite Hh in IH1. cbn [append] in IH1 |- *.
    split.
    + f_equal. exact IH1.
    + intros Hw. specialize (IH2 Hw). discriminate.
  - cbn [append]. destruct r as [|d r'].
    + split; [reflexivity|discriminate].
    + rewrite ends_with_space_tail in He.
      destruct (IH Hr He) as [IH1 IH2].
      destruct (head_is is_space (String d r')) eqn:Eh.
      * split; [|discriminate].
        destruct (words (String d r')) as [|w ws] eqn:Ew; [specialize (IH2 eq_refl); discriminate|].
        change (String.concat " " (String c "" :: w :: ws))
          with (String c (" " ++ String.concat " " (w :: ws))).
        f_equal. exact IH1.
      * cbn [append] in IH1.
        destruct (words (String d r')) as [|w ws] eqn:Ew; [specialize (IH2 eq_refl); discriminate|].
        split; [|discriminate].
        rewrite concat_cons_char. f_equal. exact IH1.
Qed.

Lemma tidy_join s : tidy s = true -> s = String.concat " " (words s).
Proof.
  unfold tidy. rewrite !andb_true_iff, !negb_true_iff. intros [[Hh He] Hs].
  destruct (single_spaced_join s Hs He) as [H _]. now rewrite Hh in H.
Qed.

(** X2. [clean_text s] is the words of [s], its maximal runs of
    non-whitespace characters, joined by single spaces (what
    [" ".join(s.split())] gives); it is empty exactly when [s] has only
    whitespace.  A no-break space separates words like any other
    whitespace, and a text of no-break spaces is cleaned to the empty
    text. *)
Theorem clean_text_join_words :
  (forall s,
      clean_text s = String.concat " " (words s) /\
      (clean_text s = "" <-> all_space s = true)) /\
  words ("a" ++ String nbsp "b") = ["a"; "b"] /\
  all_space (String nbsp (String nbsp "")) = true /\
  clean_text (String nbsp (String nbsp "")) = "".
Proof.
  split; [|split; [|split]; reflexivity].
  intros s. split; [|apply clean_text_empty_iff].
  rewrite <- (words_clean_text s). apply tidy_join, clean_text_tidy.
Qed.

(** ** Skills, roles and regions *)

Lemma lower_app a b : lower (a ++ b) = lower a ++ lower b.
Proof. induction a as [|c a IH]; cbn [append lower]; congruence. Qed.

Lemma lower_char_not_upper c : is_upper (lower_char c) = false.
Proof. destruct c as [[] [] [] [] [] [] [] []]; vm_compute; reflexivity. Qed.

Lemma lower_char_idem c : lower_char (lower_char c) = lower_char c.
Proof. unfold lower_char at 1. now rewrite lower_char_not_upper. Qed.

Lemma lower_idem s : lower (lower s) = lower s.
Proof. induction s as [|c r IH]; cbn [lower]; [reflexivity|]. now rewrite lower_char_idem, IH. Qed.

Lemma lower_no_upper s : no_upper (lower s) = true.
Proof.
  unfold no_upper. induction s as [|c r IH]; cbn [lower all_chars]; auto.
  now rewrite lower_char_not_upper, IH.
Qed.

Lemma all_chars_app p a b : all_chars p (a ++ b) = all_chars p a && all_chars p b.
Proof.
  induction a as [|c a IH]; cbn [append all_chars]; auto.
  now rewrite IH, andb_assoc.
Qed.

Lemma word_at_app x y : word_at (x ++ " " ++ y) = word_at x.
Proof. destruct x; reflexivity. Qed.

Lemma last_char_space x y : word_before (last_char None (x ++ " " ++ y)) = word_before (last_char None y).
Proof.
  rewrite last_char_app. cbn [append last_char].
  destruct y; reflexivity.
Qed.

(** A match in [a] or in [b] is a match in [a ++ " " ++ b]. *)
Lemma skill_matches_left a b sk :
  skill_matches a sk = true -> skill_matches (a ++ " " ++ b) sk = true.
Proof.
  unfold skill_matches.
  destruct ((String.length sk <=? 3)%nat || String.eqb sk "r").
  - rewrite !search_word_spec. intros (pre & post & -> & H1 & H2).
    exists pre, (post ++ " " ++ b). split; [now rewrite !string_app_assoc|].
    unfold word_boundary, boundary in *.
    rewrite <- string_app_assoc, !word_at_app. auto.
  - rewrite !contains_spec. intros (pre & post & ->).
    exists pre, (post ++ " " ++ b). now rewrite !string_app_assoc.
Qed.

Lemma skill_matches_right a b sk :
  skill_matches b sk = true -> skill_matches (a ++ " " ++ b) sk = true.
Proof.
  unfold skill_matches.
  destruct ((String.length sk <=? 3)%nat || String.eqb sk "r").
  - rewrite !search_word_spec. intros (pre & post & -> & H1 & H2).
    exists (a ++ " " ++ pre), post. split; [now rewrite !string_app_assoc|].
    unfold word_boundary, boundary in *.
    rewrite !string_app_assoc, !last_char_space. auto.
  - rewrite !contains_spec. intros (pre & post & ->).
    exists (a ++ " " ++ pre), post. now rewrite !string_app_assoc.
Qed.

Lemma extract_skills_matches text vocab sk :
  In sk (extract_skills text vocab) <-> In sk vocab /\ skill_matches (lower text) sk = true.
Proof.
  unfold extract_skills. split.
  - intros H. apply keep_first_In in H. destruct H as [H _].
    now apply filter_In in H.
  - intros H.
    assert (Hk : In sk (map (fun x => x)
                (keep_first (fun x => x) [] (filter (skill_matches (lower text)) vocab)))).
    { apply keep_first_keys. split; [|simpl; tauto].
      rewrite map_id. now apply filter_In. }
    now rewrite map_id in Hk.
Qed.

(** X3. A skill found in [a] alone or in [b] alone is found in
    [a ++ " " ++ b]; so every skill of a row's title or of its description
    is among the row's skills.  The converse fails: "machine learning" is
    found in "machine" ++ " " ++ "learning" and in neither part. *)
Theorem skills_of_parts :
  (forall a b vocab sk,
      In sk (extract_skills a vocab) \/ In sk (extract_skills b vocab) ->
      In sk (extract_skills (a ++ " " ++ b) vocab)) /\
  (forall df r sk,
      In r (clean_posts df) ->
      In sk (extract_skills (title (post r)) SKILLS) \/
      In sk (extract_skills (description (post r)) SKILLS) ->
      In sk (skills r)) /\
  extract_skills "machine" SKILLS = [] /\
  extract_skills "learning" SKILLS = [] /\
  extract_skills ("machine" ++ " " ++ "learning") SKILLS = ["machine learning"].
Proof.
  assert (G : forall a b vocab sk,
      In sk (extract_skills a vocab) \/ In sk (extract_skills b vocab) ->
      In sk (extract_skills (a ++ " " ++ b) vocab)).
  { intros a b vocab sk H. apply extract_skills_matches.
    rewrite !lower_app. change (lower " ") with " ".
    destruct H as [H|H]; apply extract_skills_matches in H; destruct H as [Hin Hm];
      split; auto using skill_matches_left, skill_matches_right. }
  split; [exact G|]. split; [|repeat split; reflexivity].
  intros df r sk Hin H. unfold clean_posts in Hin. apply in_map_iff in Hin.
  destruct Hin as (p & <- & _). cbn [enrich skills post] in *. now apply G.
Qed.

Lemma no_upper_sub pre sk post :
  no_upper (pre ++ sk ++ post) = true -> no_upper sk = true.
Proof.
  unfold no_upper. rewrite !all_chars_app, !andb_true_iff. tauto.
Qed.

(** X4. The text is lowercased and the vocabulary is not: an entry with
    an upper-case letter is never reported, whatever the text. *)
Theorem uppercase_entry_never_reported text vocab sk :
  no_upper sk = false -> ~ In sk (extract_skills text vocab).
Proof.
  intros Hu Hin. apply extract_skills_In in Hin. destruct Hin as [_ H].
  pose proof (lower_no_upper text) as Hl.
  destruct ((String.length sk <=? 3)%nat || String.eqb sk "r").
  - destruct H as (pre & post & E & _). rewrite E in Hl.
    apply no_upper_sub in Hl. congruence.
  - destruct H as (pre & post & E). rewrite E in Hl.
    apply no_upper_sub in Hl. congruence.
Qed.

Lemma uppercase_entry_never_reported_witness :
  ~ In "SQL" (extract_skills "We use SQL and sql daily" ["SQL"; "sql"]).
Proof.
  apply (uppercase_entry_never_reported "We use SQL and sql daily" ["SQL"; "sql"] "SQL").
  reflexivity.
Defined.

Lemma keep_first_length {A} (key : A -> string) seen xs :
  (List.length (keep_first key seen xs) <= List.length xs)%nat.
Proof.
  revert seen. induction xs as [|x r IH]; intros seen; cbn [keep_first List.length]; auto.
  destruct (existsb (String.eqb (key x)) seen).
  - specialize (IH seen). lia.
  - cbn [List.length]. specialize (IH (key x :: seen)). lia.
Qed.

Lemma skill_matches_empty sk : skill_matches "" sk = false.
Proof.
  unfold skill_matches.
  destruct ((String.length sk <=? 3)%nat || String.eqb sk "r") eqn:E.
  - destruct sk as [|c sk']; reflexivity.
  - destruct sk as [|c sk']; [discriminate E|]. reflexivity.
Qed.

(** X5. The empty text has no skills, whatever the vocabulary; the
    answer is never longer than the vocabulary; in a row of [clean_posts],
    [num_skills] is the length of [skills] and at most 31. *)
Theorem extract_skills_bounds :
  (forall vocab, extract_skills "" vocab = []) /\
  (forall text vocab, (List.length (extract_skills text vocab) <= List.length vocab)%nat) /\
  (forall df r, In r (clean_posts df) ->
      num_skills r = List.length (skills r) /\ (num_skills r <= 31)%nat).
Proof.
  split; [|split].
  - intros vocab. unfold extract_skills. cbn [lower].
    replace (filter (skill_matches "") vocab) with (@nil string); [reflexivity|].
    induction vocab as [|sk vocab IH]; cbn [filter]; auto.
    now rewrite skill_matches_empty.
  - intros text vocab. unfold extract_skills.
    etransitivity; [apply keep_first_length|apply filter_length_le].
  - intros df r Hin. unfold clean_posts in Hin. apply in_map_iff in Hin.
    destruct Hin as (p & <- & _). cbn [enrich num_skills skills]. split; auto.
    unfold extract_skills.
    etransitivity; [apply keep_first_length|].
    etransitivity; [apply filter_length_le|]. reflexivity.
Qed.

Lemma first_bucket_label t table label :
  first_bucket t table = Some label -> In label (map fst table).
Proof.
  induction table as [|[l keys] table IH]; cbn [first_bucket map fst]; [discriminate|].
  destruct (any_in t keys).
  - intros [= ->]. now left.
  - intros H. right. auto.
Qed.

(** X6. [categorize_role] only answers one of seven labels and
    [classify_region] one of five. *)
Theorem labels_are_closed :
  (forall title, In (categorize_role title) ROLE_LABELS) /\
  (forall location, In (classify_region location) REGION_LABELS).
Proof.
  split.
  - intros title. unfold categorize_role.
    destruct (first_bucket (lower title) ROLE_KEYWORDS) as [role|] eqn:E.
    + apply first_bucket_label in E. cbn in E. unfold ROLE_LABELS. cbn. tauto.
    + unfold ROLE_LABELS. cbn. tauto.
  - intros location. unfold classify_region.
    destruct (first_bucket (lower location) REGION_KEYWORDS) as [region|] eqn:E.
    + apply first_bucket_label in E. cbn in E. unfold REGION_LABELS. cbn. tauto.
    + unfold REGION_LABELS.
      destruct (contains "remote" (lower location)); cbn; tauto.
Qed.

Lemma contains_trans a b t :
  contains a b = true -> contains b t = true -> contains a t = true.
Proof.
  rewrite !contains_spec. intros (p1 & q1 & ->) (p2 & q2 & ->).
  exists (p2 ++ p1), (q1 ++ q2). now rewrite !string_app_assoc.
Qed.

(** X7. The keyword "analytics engineer" of the bucket "Data Engineer"
    never decides: a title that contains it contains "analytics", a
    keyword of the earlier bucket "Data Analyst", so the answer is "Data
    Analyst" or one of the two buckets before it. *)
Theorem analytics_engineer_is_shadowed title :
  contains "analytics engineer" (lower title) = true ->
  In (categorize_role title) ["Data Scientist"; "ML Engineer"; "Data Analyst"].
Proof.
  intros H.
  assert (Ha : contains "analytics" (lower title) = true)
    by (eapply contains_trans; [|exact H]; reflexivity).
  unfold categorize_role, ROLE_KEYWORDS. cbn [first_bucket any_in existsb].
  rewrite Ha.
  destruct (contains "data scientist" (lower title) || _); [cbn; tauto|].
  destruct (contains "machine learning engineer" (lower title) || _); [cbn; tauto|].
  rewrite orb_true_r. cbn; tauto.
Qed.

Lemma analytics_engineer_is_shadowed_witness :
  In (categorize_role "Senior Analytics Engineer")
     ["Data Scientist"; "ML Engineer"; "Data Analyst"].
Proof.
  apply (analytics_engineer_is_shadowed "Senior Analytics Engineer"). reflexivity.
Defined.

(** X8. "or" is a keyword of the first region and is tested as a
    substring: a location that contains "or", in particular one that
    contains "new york", "colorado" or "georgia" (keywords of the later
    regions), is classified "West Coast". *)
Theorem or_locations_are_west_coast location kw :
  In kw ["or"; "new york"; "colorado"; "georgia"] ->
  contains kw (lower location) = true ->
  classify_region location = "West Coast".
Proof.
  intros Hkw H.
  assert (Ha : contains "or" (lower location) = true).
  { eapply contains_trans; [|exact H].
    cbn in Hkw. destruct Hkw as [<-|[<-|[<-|[<-|[]]]]]; reflexivity. }
  unfold classify_region, REGION_KEYWORDS. cbn [first_bucket any_in existsb].
  rewrite Ha, !orb_true_r. reflexivity.
Qed.

Lemma or_locations_are_west_coast_witness :
  classify_region "New York, NY" = "West Coast".
Proof.
  apply (or_locations_are_west_coast "New York, NY" "new york").
  - simpl. tauto.
  - reflexivity.
Defined.

(** ** Salary text and the cleaning pass *)

(** [lower] and [clean_text] commute. *)
Lemma is_space_lower c : is_space (lower_char c) = is_space c.
Proof. destruct c as [[] [] [] [] [] [] [] []]; vm_compute; reflexivity. Qed.

Lemma collapse_lower b s : collapse_ws b (lower s) = lower (collapse_ws b s).
Proof.
  revert b. induction s as [|c r IH]; intros b; cbn [lower collapse_ws]; auto.
  rewrite is_space_lower. destruct (is_space c).
  - destruct b; [apply IH|]. cbn [lower]. now rewrite IH.
  - cbn [lower]. now rewrite IH.
Qed.

Lemma lstrip_lower s : lstrip (lower s) = lower (lstrip s).
Proof.
  induction s as [|c r IH]; cbn [lower lstrip]; auto.
  rewrite is_space_lower. destruct (is_space c); auto.
Qed.

Lemma all_space_lower s : all_space (lower s) = all_space s.
Proof.
  unfold all_space. induction s as [|c r IH]; cbn [lower all_chars]; auto.
  now rewrite is_space_lower, IH.
Qed.

Lemma rstrip_lower s : rstrip (lower s) = lower (rstrip s).
Proof.
  induction s as [|c r IH]; auto.
  change (lower (String c r)) with (String (lower_char c) (lower r)).
  cbn [rstrip].
  change (String (lower_char c) (lower r)) with (lower (String c r)).
  rewrite all_space_lower. destruct (all_space (String c r)); auto.
  cbn [lower]. now rewrite IH.
Qed.

Lemma clean_text_lower s : clean_text (lower s) = lower (clean_text s).
Proof.
  unfold clean_text, strip. now rewrite collapse_lower, lstrip_lower, rstrip_lower.
Qed.

Lemma lower_empty s : String.eqb (lower s) "" = String.eqb s "".
Proof. destruct s; reflexivity. Qed.

Lemma clean_text_idem s : clean_text (clean_text s) = clean_text s.
Proof. apply tidy_fix, clean_text_tidy. Qed.

(** X9. The salary parser cleans and lowercases its argument itself:
    cleaning or lowercasing the text beforehand does not change the
    answer. *)
Theorem parse_salary_ignores_case_and_spacing s :
  parse_salary_to_yearly_usd (clean_text s) = parse_salary_to_yearly_usd s /\
  parse_salary_to_yearly_usd (lower s) = parse_salary_to_yearly_usd s.
Proof.
  unfold parse_salary_to_yearly_usd. split.
  - now rewrite clean_text_idem.
  - rewrite clean_text_lower, lower_empty. unfold salary_text. now rewrite lower_idem.
Qed.

(** On keys without repetition, [keep_first] keeps everything. *)
Lemma keep_first_nodup {A} (key : A -> string) seen xs :
  NoDup (map key xs) ->
  (forall x, In x xs -> ~ In (key x) seen) ->
  keep_first key seen xs = xs.
Proof.
  revert seen. induction xs as [|x r IH]; intros seen Hnd Hs; cbn [keep_first]; auto.
  cbn [map] in Hnd. inversion Hnd as [|? ? Hx Hr]; subst.
  destruct (existsb (String.eqb (key x)) seen) eqn:E.
  - apply seen_spec in E. exfalso. apply (Hs x); [now left|exact E].
  - f_equal. apply IH; auto.
    intros y Hy [Hk|Hk].
    + apply Hx. rewrite Hk. now apply in_map.
    + apply (Hs y); [now right|exact Hk].
Qed.

Lemma normalize_post_idem p : normalize_post (normalize_post p) = normalize_post p.
Proof.
  unfold normalize_post.
  cbn [source title company location date_posted_raw salary_raw url description
       scraped_at_utc].
  now rewrite !clean_text_idem.
Qed.

Lemma map_post_enrich l : map post (map enrich l) = l.
Proof. rewrite map_map. cbn [enrich post]. apply map_id. Qed.

(** X10. [clean_posts] loses no URL: the URLs of its rows are exactly
    the cleaned URLs of the input.  It returns at most as many rows as it
    is given, and when the cleaned URLs of the input are pairwise
    different it returns one row per input row, in order. *)
Theorem clean_posts_loses_no_url df :
  (forall U,
      In U (map (fun r => url (post r)) (clean_posts df)) <->
      In U (map (fun p => clean_text (url p)) df)) /\
  (List.length (clean_posts df) <= List.length df)%nat /\
  (NoDup (map (fun p => clean_text (url p)) df) ->
   clean_posts df = map (fun p => enrich (normalize_post p)) df).
Proof.
  unfold clean_posts, drop_duplicates_url. split; [|split].
  - intros U. rewrite map_map. cbn [enrich post].
    rewrite keep_first_keys, map_map. cbn [normalize_post url In]. tauto.
  - rewrite length_map. etransitivity; [apply keep_first_length|].
    now rewrite length_map.
  - intros Hnd. rewrite keep_first_nodup.
    + now rewrite map_map.
    + now rewrite map_map.
    + intros x _ [].
Qed.

(** X11. Every row of [clean_posts] is derived from an input row, and
    its source, title, company, location, URL and description are tidy
    text. *)
Theorem clean_posts_rows df r :
  In r (clean_posts df) ->
  (exists p, In p df /\ r = enrich (normalize_post p)) /\
  tidy (source (post r)) = true /\ tidy (title (post r)) = true /\
  tidy (company (post r)) = true /\ tidy (location (post r)) = true /\
  tidy (url (post r)) = true /\ tidy (description (post r)) = true.
Proof.
  unfold clean_posts, drop_duplicates_url. intros Hin.
  apply in_map_iff in Hin. destruct Hin as (q & <- & Hq).
  apply keep_first_In in Hq. destruct Hq as [Hq _].
  apply in_map_iff in Hq. destruct Hq as (p & <- & Hp).
  split; [now exists p|].
  cbn [enrich post normalize_post source title company location url description].
  repeat split; apply clean_text_tidy.
Qed.

Lemma clean_posts_rows_witness :
  tidy (title (post (enrich (normalize_post (sample_post "  $40 / hr " " https://x.test/1  "))))) = true.
Proof.
  destruct (clean_posts_rows [sample_post "  $40 / hr " " https://x.test/1  "]
              (enrich (normalize_post (sample_post "  $40 / hr " " https://x.test/1  "))))
    as (_ & _ & H & _).
  - vm_compute. left. reflexivity.
  - exact H.
Defined.

(** X12. Running [clean_posts] on the posts of its own result gives the
    same result. *)
Theorem clean_posts_idempotent df :
  clean_posts (map post (clean_posts df)) = clean_posts df.
Proof.
  unfold clean_posts, drop_duplicates_url. rewrite map_post_enrich. f_equal.
  set (L := keep_first url [] (map normalize_post df)).
  assert (Hn : map normalize_post L = L).
  { rewrite <- (map_id L) at 2. apply map_ext_in. intros q Hq.
    apply keep_first_In in Hq. destruct Hq as [Hq _].
    apply in_map_iff in Hq. destruct Hq as (p & <- & _). apply normalize_post_idem. }
  rewrite Hn. apply keep_first_nodup.
  - apply keep_first_NoDup.
  - intros x _ [].
Qed.

(** ** Fetching with retries *)

Lemma accepted_spec r :
  accepted r = true <-> exists t, r = Response 200 t /\ t <> "".
Proof.
  destruct r as [st t|e]; cbn [accepted].
  - rewrite andb_true_iff, negb_true_iff, Z.eqb_eq, String.eqb_neq. split.
    + intros [-> Ht]. now exists t.
    + intros (t' & [= -> ->] & Ht). auto.
  - split; [discriminate|]. intros (t & H & _). discriminate.
Qed.

Lemma attempt_loop_S url net left sent last_err :
  attempt_loop url net (S left) sent last_err =
  if accepted (net sent)
  then (match net sent with
        | Response _ text => Fetched text
        | Raised e => FetchError e
        end, S sent)
  else attempt_loop url net left (S sent) (Some (error_text url (net sent))).
Proof. cbn [attempt_loop]. destruct (net sent) as [st t|e]; reflexivity. Qed.

Lemma attempt_loop_success url net left sent last_err t sent' :
  attempt_loop url net left sent last_err = (Fetched t, sent') <->
  exists k,
    (k < left)%nat /\ sent' = (sent + k + 1)%nat /\
    net (sent + k)%nat = Response 200 t /\ t <> "" /\
    forall j, (j < k)%nat -> accepted (net (sent + j)%nat) = false.
Proof.
  revert sent last_err. induction left as [|left IH]; intros sent last_err.
  - cbn [attempt_loop]. split; [discriminate|]. intros (k & Hk & _). lia.
  - rewrite attempt_loop_S. destruct (accepted (net sent)) eqn:Ea.
    + pose proof Ea as Ea'. apply accepted_spec in Ea'. destruct Ea' as (t0 & Hr & Ht0).
      rewrite Hr. split.
      * intros [= <- <-]. exists 0%nat. rewrite Nat.add_0_r.
        repeat split; auto; try lia.
      * intros (k & Hk & -> & Hn & Ht & Hj).
        destruct k as [|k].
        -- rewrite Nat.add_0_r in Hn. rewrite Hr in Hn. injection Hn as <-.
           f_equal. lia.
        -- specialize (Hj 0%nat ltac:(lia)). rewrite Nat.add_0_r in Hj. congruence.
    + rewrite IH. split.
      * intros (k & Hk & -> & Hn & Ht & Hj). exists (S k).
        replace (sent + S k)%nat with (S sent + k)%nat by lia.
        repeat split; auto; try lia.
        intros j Hjk. destruct j as [|j].
        -- now rewrite Nat.add_0_r.
        -- replace (sent + S j)%nat with (S sent + j)%nat by lia. apply Hj. lia.
      * intros (k & Hk & -> & Hn & Ht & Hj).
        destruct k as [|k].
        -- rewrite Nat.add_0_r in Hn.
           assert (accepted (net sent) = true) by (apply accepted_spec; eauto). congruence.
        -- exists k. replace (S sent + k)%nat with (sent + S k)%nat by lia.
           repeat split; auto; try lia.
           intros j Hjk. replace (S sent + j)%nat with (sent + S j)%nat by lia.
           apply Hj. lia.
Qed.

Lemma attempt_loop_failure url net left sent last_err :
  (forall j, (j < left)%nat -> accepted (net (sent + j)%nat) = false) ->
  attempt_loop url net left sent last_err =
    (FetchError ("Failed to fetch " ++ url ++ ". Last error: " ++
                 match left with
                 | O => last_err_text last_err
                 | S k => error_text url (net (sent + k)%nat)
                 end),
     (sent + left)%nat).
Proof.
  revert sent last_err. induction left as [|left IH]; intros sent last_err H.
  - cbn [attempt_loop]. now rewrite Nat.add_0_r.
  - rewrite attempt_loop_S.
    pose proof (H 0%nat ltac:(lia)) as H0. rewrite Nat.add_0_r in H0. rewrite H0.
    rewrite IH.
    + replace (S sent + left)%nat with (sent + S left)%nat by lia.
      destruct left as [|k]; cbn [last_err_text].
      * now rewrite Nat.add_0_r.
      * replace (S sent + k)%nat with (sent + S k)%nat by lia. reflexivity.
    + intros j Hj. replace (S sent + j)%nat with (sent + S j)%nat by lia. apply H. lia.
Qed.

Lemma attempt_loop_not_failure url net left sent last_err msg sent' :
  attempt_loop url net left sent last_err = (FetchError msg, sent') ->
  forall j, (j < left)%nat -> accepted (net (sent + j)%nat) = false.
Proof.
  revert sent last_err. induction left as [|left IH]; intros sent last_err.
  - intros _ j Hj. lia.
  - rewrite attempt_loop_S. destruct (accepted (net sent)) eqn:Ea.
    + apply accepted_spec in Ea. destruct Ea as (t0 & -> & _). discriminate.
    + intros H j Hj. destruct j as [|j].
      * now rewrite Nat.add_0_r.
      * replace (sent + S j)%nat with (S sent + j)%nat by lia. eapply IH; eauto. lia.
Qed.

(** X13. [polite_get] returns a text exactly when one of the first
    [retries] replies is a response with status 200 and a non-empty text:
    it returns the text of the first such reply and has made no request
    after it. *)
Theorem polite_get_success url retries net sent t sent' :
  polite_get url retries net sent = (Fetched t, sent') <->
  exists k,
    (Z.of_nat k < retries)%Z /\ sent' = (sent + k + 1)%nat /\
    net (sent + k)%nat = Response 200 t /\ t <> "" /\
    forall j, (j < k)%nat -> accepted (net (sent + j)%nat) = false.
Proof.
  unfold polite_get. rewrite attempt_loop_success.
  split; intros (k & Hk & H); exists k; (split; [lia|exact H]).
Qed.

(** X14. [polite_get] raises exactly when none of the first [retries]
    replies is a response with status 200 and a non-empty text; it has
    then made [retries] requests, and its message ends with the error of
    the last one ("HTTP <status> for <url>", or the text of the exception
    raised).  With [retries <= 0] it makes no request and the message
    ends with "Last error: None". *)
Theorem polite_get_failure url retries net sent :
  ((exists msg sent', polite_get url retries net sent = (FetchError msg, sent')) <->
   (forall j, (Z.of_nat j < retries)%Z -> accepted (net (sent + j)%nat) = false)) /\
  ((forall j, (Z.of_nat j < retries)%Z -> accepted (net (sent + j)%nat) = false) ->
   polite_get url retries net sent =
     (FetchError ("Failed to fetch " ++ url ++ ". Last error: " ++
                  match Z.to_nat retries with
                  | O => "None"
                  | S k => error_text url (net (sent + k)%nat)
                  end),
      (sent + Z.to_nat retries)%nat)) /\
  ((retries <= 0)%Z ->
   polite_get url retries net sent =
     (FetchError ("Failed to fetch " ++ url ++ ". Last error: None"), sent)).
Proof.
  unfold polite_get. split; [split|split].
  - intros (msg & sent' & H) j Hj.
    eapply attempt_loop_not_failure; eauto. lia.
  - intros H. rewrite attempt_loop_failure; [eauto|]. intros j Hj. apply H. lia.
  - intros H. rewrite attempt_loop_failure; [reflexivity|]. intros j Hj. apply H. lia.
  - intros H. replace (Z.to_nat retries) with 0%nat by lia. reflexivity.
Qed.

(** ** The scrapers *)

Lemma keep_post_spec e src t c l d s u desc ticks p :
  keep_post e src t c l d s u desc ticks = Some p ->
  t <> "" /\ c <> "" /\ u <> "" /\
  p = {| source := src; title := t; company := c; location := l;
         date_posted_raw := d; salary_raw := s; url := u;
         description := desc; scraped_at_utc := now_utc_iso e ticks |}.
Proof.
  unfold keep_post.
  destruct (String.eqb_spec t ""); [discriminate|].
  destruct (String.eqb_spec c ""); [discriminate|].
  destruct (String.eqb_spec u ""); [discriminate|].
  cbn [orb]. intros [= <-]. auto.
Qed.

Lemma remoteok_item_spec e it ticks p :
  remoteok_item e it ticks = Returned (Some p) ->
  source p = "RemoteOK" /\ well_formed p /\
  exists d, it = Some d /\
    truthy (py_or (get d "position") (get d "title")) = true /\
    truthy (get d "company") = true /\
    exists s, get d "url" = PStr s /\ s <> "".
Proof.
  unfold remoteok_item. destruct it as [d|]; [|discriminate].
  destruct (truthy (py_or (get d "url") (PStr ""))) eqn:Eu.
  - destruct (py_or (get d "url") (PStr "")) as [| | |s|] eqn:Ev; try discriminate.
    destruct (html_text e _) as [desc|]; [|discriminate].
    intros [= H]. apply keep_post_spec in H. destruct H as (Ht & Hc & Hu & ->).
    split; [reflexivity|]. split.
    + unfold well_formed. cbn [source title company location date_posted_raw salary_raw
                                url description].
      repeat split; auto; try apply clean_text_tidy.
    + exists d. split; auto.
      assert (Hurl : get d "url" = PStr s /\ s <> "").
      { unfold py_or in Ev. destruct (truthy (get d "url")) eqn:E.
        - rewrite Ev in E. cbn [truthy] in E.
          apply negb_true_iff, String.eqb_neq in E. auto.
        - injection Ev as <-. discriminate Eu. }
      repeat split.
      * destruct (truthy (py_or (get d "position") (get d "title"))) eqn:E; auto.
        exfalso. apply Ht. unfold py_or at 1. rewrite E. reflexivity.
      * destruct (truthy (get d "company")) eqn:E; auto.
        exfalso. apply Hc. unfold py_or. rewrite E. reflexivity.
      * exists s. exact Hurl.
  - destruct (html_text e _) as [desc|]; [|discriminate].
    intros [= H]. apply keep_post_spec in H. destruct H as (_ & _ & Hu & _).
    exfalso. apply Hu. unfold py_or in *.
    destruct (truthy (get d "url")) eqn:E; [congruence|reflexivity].
Qed.

Lemma remotive_item_spec e it ticks p :
  remotive_item e it ticks = Returned (Some p) ->
  source p = "Remotive" /\ well_formed p /\ location p <> "".
Proof.
  unfold remotive_item. destruct it as [j|]; [|discriminate].
  destruct (html_text e _) as [desc|]; [|discriminate].
  intros [= H]. apply keep_post_spec in H. destruct H as (Ht & Hc & Hu & ->).
  split; [reflexivity|].
  cbn [source title company location date_posted_raw salary_raw url description].
  split.
  - unfold well_formed.
    cbn [source title company location date_posted_raw salary_raw url description].
    repeat split; auto; try apply clean_text_tidy.
    destruct (String.eqb _ ""); [reflexivity|apply clean_text_tidy].
  - destruct (String.eqb_spec
                (clean_text (py_str (get_default j "candidate_required_location" (PStr "")))) "");
      [discriminate|auto].
Qed.

(** The loop: what it keeps satisfies what the body guarantees, each kept
    post reads the clock once, and it stops at the limit. *)
Lemma scrape_loop_spec (P : JobPost -> Prop) body limit items :
  (forall it ticks p, body it ticks = Returned (Some p) -> P p) ->
  forall posts ticks posts' ticks',
    Forall P posts ->
    posts = [] \/ (Z.of_nat (List.length posts) < limit)%Z ->
    scrape_loop body limit items posts ticks = Returned (posts', ticks') ->
    Forall P posts' /\
    (Z.of_nat (List.length posts') <= Z.max 1 limit)%Z /\
    (ticks' + List.length posts = ticks + List.length posts')%nat.
Proof.
  intros Hbody. induction items as [|it rest IH]; intros posts ticks posts' ticks' HP Hlen;
    cbn [scrape_loop].
  - intros [= <- <-]. repeat split; auto.
    destruct Hlen as [->|H]; cbn [List.length]; lia.
  - destruct (body it ticks) as [[p|]|f] eqn:Eb; [| |discriminate].
    + assert (HP' : Forall P (posts ++ [p])%list).
      { apply Forall_app. split; auto. constructor; eauto. }
      assert (Hl : List.length (posts ++ [p])%list = S (List.length posts))
        by (rewrite length_app; cbn; lia).
      destruct (Z.leb_spec limit (Z.of_nat (List.length (posts ++ [p])%list))) as [Hge|Hlt].
      * intros [= <- <-]. repeat split; auto; [|lia].
        rewrite Hl. destruct Hlen as [->|H]; cbn [List.length]; lia.
      * intros H. apply IH in H; auto. destruct H as (H1 & H2 & H3).
        repeat split; auto. lia.
    + apply IH; auto.
Qed.

Lemma scrape_loop_first body limit it rest ticks p :
  (limit <= 1)%Z ->
  body it ticks = Returned (Some p) ->
  scrape_loop body limit (it :: rest) [] ticks = Returned ([p], S ticks).
Proof.
  intros Hl Hb. cbn [scrape_loop]. rewrite Hb. cbn [app List.length].
  destruct (Z.leb_spec limit (Z.of_nat 1)); [reflexivity|lia].
Qed.

Lemma polite_get_sent url retries nt sent t sent' :
  polite_get url retries nt sent = (Fetched t, sent') ->
  (sent < sent' <= sent + Z.to_nat retries)%nat.
Proof.
  unfold polite_get. intros H. apply attempt_loop_success in H.
  destruct H as (k & Hk & -> & _). lia.
Qed.

Lemma scrape_remoteok_posts_aux e limit sent ticks posts sent' ticks' :
  scrape_remoteok e limit sent ticks = Returned (posts, sent', ticks') ->
  Forall (fun p => source p = "RemoteOK" /\ well_formed p) posts /\
  (Z.of_nat (List.length posts) <= Z.max 1 limit)%Z /\
  ticks' = (ticks + List.length posts)%nat /\
  (sent < sent' <= sent + 3)%nat.
Proof.
  unfold scrape_remoteok.
  destruct (polite_get "https://remoteok.com/api" 3 (net e) sent) as [[text|msg] sent1] eqn:Ep;
    [|discriminate].
  apply polite_get_sent in Ep.
  destruct (json_loads e text) as [|data| |]; try discriminate.
  destruct (scrape_loop (remoteok_item e) limit (tl data) [] ticks) as [[ps tk]|f] eqn:El;
    [|discriminate].
  intros [= <- <- <-].
  apply (scrape_loop_spec (fun p => source p = "RemoteOK" /\ well_formed p)) in El; auto.
  - destruct El as (H1 & H2 & H3). cbn [List.length] in H3.
    repeat split; auto; try lia.
  - intros it tk' p H. apply remoteok_item_spec in H. tauto.
Qed.

(** X15. When [scrape_remoteok] returns, every post has the source
    "RemoteOK", a non-empty title, company and URL, and cleaned fields;
    there are at most [max 1 limit] posts; the clock was read once per
    post; and between one and three requests were made. *)
Theorem scrape_remoteok_posts e limit sent ticks posts sent' ticks' :
  scrape_remoteok e limit sent ticks = Returned (posts, sent', ticks') ->
  Forall (fun p => source p = "RemoteOK" /\ well_formed p) posts /\
  (Z.of_nat (List.length posts) <= Z.max 1 limit)%Z /\
  ticks' = (ticks + List.length posts)%nat /\
  (sent < sent' <= sent + 3)%nat.
Proof. apply scrape_remoteok_posts_aux. Qed.

Lemma scrape_remoteok_posts_witness :
  Forall (fun p => source p = "RemoteOK" /\ well_formed p)
    [sample_scraped "RemoteOK" "" "" "https://remoteok.com/jobs/1" "0";
     sample_scraped "RemoteOK" "" "" "https://remoteok.com/jobs/1" "1"] /\
  (Z.of_nat 2 <= Z.max 1 2)%Z /\ 2%nat = (0 + 2)%nat /\ (0 < 1 <= 0 + 3)%nat.
Proof.
  apply (scrape_remoteok_posts sample_env 2 0 0
           [sample_scraped "RemoteOK" "" "" "https://remoteok.com/jobs/1" "0";
            sample_scraped "RemoteOK" "" "" "https://remoteok.com/jobs/1" "1"] 1 2).
  vm_compute. reflexivity.
Defined.

Lemma scrape_remotive_posts_aux e limit sent ticks posts sent' ticks' :
  scrape_remotive e limit sent ticks = Returned (posts, sent', ticks') ->
  Forall (fun p => source p = "Remotive" /\ well_formed p /\ location p <> "") posts /\
  (Z.of_nat (List.length posts) <= Z.max 1 limit)%Z /\
  ticks' = (ticks + List.length posts)%nat /\
  sent' = S sent /\
  ((forall text, net e sent <> Response 200 text) -> posts = []).
Proof.
  unfold scrape_remotive.
  destruct (net e sent) as [st text|ex] eqn:En; [|discriminate].
  destruct (Z.eqb_spec st 200) as [->|Hst]; cbn [negb].
  - assert (Hno : (forall text0, Response 200 text <> Response 200 text0) -> posts = [])
      by (intros H; exfalso; now apply (H text)).
    destruct (json_loads e text) as [|data|[[jobs|]|]|];
      try discriminate;
      try (intros [= <- <- <-]; repeat split; auto; cbn [List.length]; lia).
    destruct (scrape_loop (remotive_item e) limit jobs [] ticks) as [[ps tk]|f] eqn:El;
      [|discriminate].
    intros [= <- <- <-].
    apply (scrape_loop_spec
             (fun p => source p = "Remotive" /\ well_formed p /\ location p <> "")) in El; auto.
    + destruct El as (H1 & H2 & H3). cbn [List.length] in H3.
      repeat split; auto; lia.
    + intros it tk' p H. now apply remotive_item_spec in H.
  - intros [= <- <- <-]. repeat split; auto; cbn [List.length]; lia.
Qed.

(** X16. When [scrape_remotive] returns, every post has the source
    "Remotive", a non-empty title, company, URL and location, and cleaned
    fields; there are at most [max 1 limit] posts; the clock was read once
    per post; exactly one request was made; and a reply that is no
    response with status 200 gives no post. *)
Theorem scrape_remotive_posts e limit sent ticks posts sent' ticks' :
  scrape_remotive e limit sent ticks = Returned (posts, sent', ticks') ->
  Forall (fun p => source p = "Remotive" /\ well_formed p /\ location p <> "") posts /\
  (Z.of_nat (List.length posts) <= Z.max 1 limit)%Z /\
  ticks' = (ticks + List.length posts)%nat /\
  sent' = S sent /\
  ((forall text, net e sent <> Response 200 text) -> posts = []).
Proof. apply scrape_remotive_posts_aux. Qed.

Lemma scrape_remotive_posts_witness :
  Forall (fun p => source p = "Remotive" /\ well_formed p /\ location p <> "")
    [sample_scraped "Remotive" "Remote" "None" "/jobs/1" "0";
     sample_scraped "Remotive" "Remote" "None" "https://remoteok.com/jobs/1" "1"] /\
  (Z.of_nat 2 <= Z.max 1 5)%Z /\ 2%nat = (0 + 2)%nat /\ 2%nat = 2%nat /\
  ((forall text, net sample_env 1 <> Response 200 text) ->
   [sample_scraped "Remotive" "Remote" "None" "/jobs/1" "0";
    sample_scraped "Remotive" "Remote" "None" "https://remoteok.com/jobs/1" "1"] = []).
Proof.
  apply (scrape_remotive_posts sample_env 5 1 0
           [sample_scraped "Remotive" "Remote" "None" "/jobs/1" "0";
            sample_scraped "Remotive" "Remote" "None" "https://remoteok.com/jobs/1" "1"] 2 2).
  vm_compute. reflexivity.
Defined.

(** Elements the body skips leave the loop as it was. *)
Lemma scrape_loop_skip body limit skipped items posts ticks :
  Forall (fun x => body x ticks = Returned None) skipped ->
  scrape_loop body limit (skipped ++ items)%list posts ticks =
  scrape_loop body limit items posts ticks.
Proof.
  induction 1 as [|x skipped Hx _ IH]; [reflexivity|].
  cbn [app scrape_loop]. rewrite Hx. exact IH.
Qed.

Lemma scrape_loop_all_skipped body limit items posts ticks :
  Forall (fun x => body x ticks = Returned None) items ->
  scrape_loop body limit items posts ticks = Returned (posts, ticks).
Proof.
  intros H. rewrite <- (app_nil_r items). now rewrite scrape_loop_skip.
Qed.

(** X17. The limit is tested after a post is appended: with a limit
    of 1 or less (0 and negative numbers too) both scrapers return
    exactly one post, the first element of the payload that is kept,
    whatever number of skipped elements stands before it; they return no
    post only when every element is skipped, and never more than one. *)
Theorem limit_below_one_still_returns_a_post :
  (forall e limit sent ticks text skipped it rest p,
      (limit <= 1)%Z ->
      net e sent = Response 200 text ->
      json_loads e text = Mapping (Some (Iterable (skipped ++ it :: rest)%list)) ->
      Forall (fun x => remotive_item e x ticks = Returned None) skipped ->
      remotive_item e it ticks = Returned (Some p) ->
      scrape_remotive e limit sent ticks = Returned ([p], S sent, S ticks)) /\
  (forall e limit sent ticks text sent' first skipped it rest p,
      (limit <= 1)%Z ->
      polite_get "https://remoteok.com/api" 3 (net e) sent = (Fetched text, sent') ->
      json_loads e text = Sequence (first :: skipped ++ it :: rest)%list ->
      Forall (fun x => remoteok_item e x ticks = Returned None) skipped ->
      remoteok_item e it ticks = Returned (Some p) ->
      scrape_remoteok e limit sent ticks = Returned ([p], sent', S ticks)) /\
  (forall e limit sent ticks text items,
      net e sent = Response 200 text ->
      json_loads e text = Mapping (Some (Iterable items)) ->
      Forall (fun x => remotive_item e x ticks = Returned None) items ->
      scrape_remotive e limit sent ticks = Returned ([], S sent, ticks)) /\
  (forall e limit sent ticks text sent' first items,
      polite_get "https://remoteok.com/api" 3 (net e) sent = (Fetched text, sent') ->
      json_loads e text = Sequence (first :: items) ->
      Forall (fun x => remoteok_item e x ticks = Returned None) items ->
      scrape_remoteok e limit sent ticks = Returned ([], sent', ticks)) /\
  (forall e limit sent ticks posts sent' ticks',
      (limit <= 1)%Z ->
      scrape_remotive e limit sent ticks = Returned (posts, sent', ticks') \/
      scrape_remoteok e limit sent ticks = Returned (posts, sent', ticks') ->
      (List.length posts <= 1)%nat) /\
  scrape_remotive sparse_env 0 1 0 =
    Returned ([sample_scraped "Remotive" "Remote" "None" "/jobs/1" "0"], 2%nat, 1%nat) /\
  scrape_remoteok sparse_env (-5) 0 0 =
    Returned ([sample_scraped "RemoteOK" "" "" "https://remoteok.com/jobs/1" "0"],
              1%nat, 1%nat) /\
  scrape_remotive sample_env 0 1 0 =
    Returned ([sample_scraped "Remotive" "Remote" "None" "/jobs/1" "0"], 2%nat, 1%nat) /\
  scrape_remoteok sample_env (-5) 0 0 =
    Returned ([sample_scraped "RemoteOK" "" "" "https://remoteok.com/jobs/1" "0"],
              1%nat, 1%nat).
Proof.
  split; [|split; [|split; [|split; [|split]]]].
  - intros e limit sent ticks text skipped it rest p Hl Hn Hj Hs Hi.
    unfold scrape_remotive. rewrite Hn. cbn [Z.eqb negb Pos.eqb]. rewrite Hj.
    rewrite scrape_loop_skip by exact Hs.
    now rewrite (scrape_loop_first _ _ _ _ _ p Hl Hi).
  - intros e limit sent ticks text sent' first skipped it rest p Hl Hp Hj Hs Hi.
    unfold scrape_remoteok. rewrite Hp, Hj. cbn [tl].
    rewrite scrape_loop_skip by exact Hs.
    now rewrite (scrape_loop_first _ _ _ _ _ p Hl Hi).
  - intros e limit sent ticks text items Hn Hj Hs.
    unfold scrape_remotive. rewrite Hn. cbn [Z.eqb negb Pos.eqb]. rewrite Hj.
    now rewrite scrape_loop_all_skipped.
  - intros e limit sent ticks text sent' first items Hp Hj Hs.
    unfold scrape_remoteok. rewrite Hp, Hj. cbn [tl].
    now rewrite scrape_loop_all_skipped.
  - intros e limit sent ticks posts sent' ticks' Hl [H|H].
    + apply scrape_remotive_posts_aux in H. destruct H as (_ & H & _). lia.
    + apply scrape_remoteok_posts_aux in H. destruct H as (_ & H & _). lia.
  - split; [vm_compute; reflexivity|].
    split; [vm_compute; reflexivity|].
    split; vm_compute; reflexivity.
Qed.

(** X18. A JSON null is read differently by the two scrapers.
    [scrape_remotive] takes [str(None)]: an element whose title, company
    name and URL are null is kept, with the text "None" in the three
    fields.  [scrape_remoteok] replaces a null by the empty text: it keeps
    an element only if its position or title and its company are
    non-empty values and its URL is a non-empty string. *)
Theorem null_fields_differ_between_sources :
  (forall e j ticks desc,
      j "title" = Some PNone -> j "company_name" = Some PNone -> j "url" = Some PNone ->
      html_text e (py_or (get_default j "description" (PStr "")) (PStr "")) = Some desc ->
      exists p,
        remotive_item e (Some j) ticks = Returned (Some p) /\
        title p = "None" /\ company p = "None" /\ url p = "None") /\
  (forall e d ticks p,
      remoteok_item e (Some d) ticks = Returned (Some p) ->
      truthy (py_or (get d "position") (get d "title")) = true /\
      truthy (get d "company") = true /\
      exists s, get d "url" = PStr s /\ s <> "").
Proof.
  split.
  - intros e j ticks desc Ht Hc Hu Hd. unfold remotive_item, get_default in *.
    rewrite Ht, Hc, Hu, Hd. cbn [py_str].
    change (clean_text "None") with "None".
    eexists. split; [reflexivity|]. cbn. auto.
  - intros e d ticks p H. apply remoteok_item_spec in H.
    destruct H as (_ & _ & d' & [= <-] & H). exact H.
Qed.

Lemma well_formed_normalize p : well_formed p -> normalize_post p = p.
Proof.
  unfold well_formed. intros (_ & _ & _ & Hs & Ht & Hc & Hl & _ & _ & Hu & Hd).
  destruct p as [src t c l d s u desc stamp]. unfold normalize_post.
  cbn [source title company location date_posted_raw salary_raw url description
       scraped_at_utc] in *.
  now rewrite !tidy_fix by assumption.
Qed.

Lemma data_frame_rows posts df : data_frame posts = Rows df -> df = posts /\ df <> [].
Proof. destruct posts; cbn [data_frame]; [discriminate|]. intros [= <-]. split; [reflexivity|discriminate]. Qed.

Lemma collect_posts_parts e l1 l2 sent ticks f :
  collect_posts e l1 l2 sent ticks = Returned f ->
  exists posts1 posts2 s1 t1 s2 t2,
    scrape_remoteok e l1 sent ticks = Returned (posts1, s1, t1) /\
    scrape_remotive e l2 s1 t1 = Returned (posts2, s2, t2) /\
    f = data_frame (posts1 ++ posts2)%list /\
    Forall (fun p => source p = "RemoteOK" /\ well_formed p) posts1 /\
    Forall (fun p => source p = "Remotive" /\ well_formed p /\ location p <> "") posts2 /\
    (Z.of_nat (List.length posts1) <= Z.max 1 l1)%Z /\
    (Z.of_nat (List.length posts2) <= Z.max 1 l2)%Z.
Proof.
  unfold collect_posts.
  destruct (scrape_remoteok e l1 sent ticks) as [[[posts1 s1] t1]|f'] eqn:E1; [|discriminate].
  destruct (scrape_remotive e l2 s1 t1) as [[[posts2 s2] t2]|f'] eqn:E2; [|discriminate].
  intros [= <-]. exists posts1, posts2, s1, t1, s2, t2.
  pose proof (scrape_remoteok_posts_aux _ _ _ _ _ _ _ E1) as A1.
  pose proof (scrape_remotive_posts_aux _ _ _ _ _ _ _ E2) as A2.
  tauto.
Qed.

Lemma collect_posts_rows e l1 l2 sent ticks df :
  collect_posts e l1 l2 sent ticks = Returned (Rows df) ->
  exists posts1 posts2,
    df = (posts1 ++ posts2)%list /\ df <> [] /\
    Forall (fun p => source p = "RemoteOK" /\ well_formed p) posts1 /\
    Forall (fun p => source p = "Remotive" /\ well_formed p /\ location p <> "") posts2 /\
    (Z.of_nat (List.length posts1) <= Z.max 1 l1)%Z /\
    (Z.of_nat (List.length posts2) <= Z.max 1 l2)%Z.
Proof.
  intros H. apply collect_posts_parts in H.
  destruct H as (posts1 & posts2 & s1 & t1 & s2 & t2 & _ & _ & Hf & H).
  symmetry in Hf. apply data_frame_rows in Hf. destruct Hf as [-> Hne].
  exists posts1, posts2. tauto.
Qed.

Lemma collect_then_clean_aux e l1 l2 sent ticks df :
  collect_posts e l1 l2 sent ticks = Returned (Rows df) ->
  map normalize_post df = df /\
  map post (clean_posts df) = drop_duplicates_url df.
Proof.
  intros H. apply collect_posts_rows in H.
  destruct H as (posts1 & posts2 & -> & _ & H1 & H2 & L1 & L2).
  assert (Hwf : Forall well_formed (posts1 ++ posts2)%list).
  { apply Forall_app. split.
    - eapply Forall_impl; [|exact H1]. cbn. tauto.
    - eapply Forall_impl; [|exact H2]. cbn. tauto. }
  assert (Hn : map normalize_post (posts1 ++ posts2)%list = (posts1 ++ posts2)%list).
  { rewrite <- (map_id (posts1 ++ posts2)%list) at 2. apply map_ext_in.
    intros p Hp. apply well_formed_normalize.
    rewrite Forall_forall in Hwf. auto. }
  split; [exact Hn|].
  unfold clean_posts. now rewrite map_post_enrich, Hn.
Qed.

Lemma clean_posts_not_empty df : df <> [] -> clean_posts df <> [].
Proof.
  destruct df as [|p rest]; [congruence|]. intros _.
  unfold clean_posts, drop_duplicates_url. cbn [map keep_first existsb].
  discriminate.
Qed.

(** X19. A frame with columns that [collect_posts] builds has at least
    one and at most [max 1 remoteok_limit + max 1 remotive_limit] rows,
    each with cleaned fields and a non-empty title, company and URL; the
    normalisation of [clean_posts] leaves it as it is, so the posts of
    [clean_posts df] are [df] without the later rows of a repeated URL. *)
Theorem collect_then_clean e l1 l2 sent ticks df :
  collect_posts e l1 l2 sent ticks = Returned (Rows df) ->
  df <> [] /\
  Forall well_formed df /\
  (Z.of_nat (List.length df) <= Z.max 1 l1 + Z.max 1 l2)%Z /\
  map normalize_post df = df /\
  clean_posts_frame (Rows df) = Returned (clean_posts df) /\
  map post (clean_posts df) = drop_duplicates_url df.
Proof.
  intros H. pose proof (collect_then_clean_aux _ _ _ _ _ _ H) as [Hn Hpost].
  apply collect_posts_rows in H.
  destruct H as (posts1 & posts2 & -> & Hne & H1 & H2 & L1 & L2).
  split; [exact Hne|].
  split; [|split; [rewrite length_app; lia|auto]].
  apply Forall_app. split.
  - eapply Forall_impl; [|exact H1]. cbn. tauto.
  - eapply Forall_impl; [|exact H2]. cbn. tauto.
Qed.

Lemma collect_then_clean_witness :
  sample_frame <> [] /\
  Forall well_formed sample_frame /\
  (Z.of_nat (List.length sample_frame) <= Z.max 1 2 + Z.max 1 2)%Z /\
  map normalize_post sample_frame = sample_frame /\
  clean_posts_frame (Rows sample_frame) = Returned (clean_posts sample_frame) /\
  map post (clean_posts sample_frame) = drop_duplicates_url sample_frame.
Proof.
  apply (collect_then_clean sample_env 2 2 0 0 sample_frame).
  vm_compute. reflexivity.
Defined.

Lemma filter_head_in {A} (f : A -> bool) l x rest :
  filter f l = x :: rest -> In x l.
Proof.
  intros H. assert (Hin : In x (filter f l)) by (rewrite H; now left).
  now apply filter_In in Hin.
Qed.

(** X20. RemoteOK comes first in the frame: when a RemoteOK post of
    the frame has the URL of a row of [clean_posts], that row is a
    RemoteOK post. *)
Theorem remoteok_wins_shared_urls e l1 l2 sent ticks df r p :
  collect_posts e l1 l2 sent ticks = Returned (Rows df) ->
  In r (clean_posts df) ->
  In p df -> source p = "RemoteOK" -> url p = url (post r) ->
  source (post r) = "RemoteOK".
Proof.
  intros H Hr Hp Hsrc Hurl.
  pose proof H as Hc. apply collect_then_clean_aux in Hc. destruct Hc as (Hn & Hpost).
  apply collect_posts_rows in H.
  destruct H as (posts1 & posts2 & -> & _ & H1 & H2 & _ & _).
  assert (Hq : In (post r) (drop_duplicates_url (posts1 ++ posts2)%list))
    by (rewrite <- Hpost; now apply in_map).
  unfold drop_duplicates_url in Hq.
  assert (Hf : In (post r)
                 (filter (fun x => String.eqb (url x) (url (post r)))
                    (keep_first url [] (posts1 ++ posts2)%list))).
  { apply filter_In. split; auto. apply String.eqb_refl. }
  rewrite keep_first_filter in Hf. cbn [existsb] in Hf.
  rewrite filter_app in Hf.
  assert (Hp1 : In p posts1).
  { apply in_app_or in Hp. destruct Hp as [Hp|Hp]; auto.
    rewrite Forall_forall in H2. destruct (H2 p Hp) as [Hs _]. congruence. }
  destruct (filter (fun x => String.eqb (url x) (url (post r))) posts1) as [|x rest] eqn:Ef.
  - exfalso.
    assert (Hin : In p (filter (fun x => String.eqb (url x) (url (post r))) posts1)).
    { apply filter_In. split; auto. now apply String.eqb_eq. }
    now rewrite Ef in Hin.
  - cbn [app] in Hf. destruct Hf as [<-|[]].
    apply filter_head_in in Ef. rewrite Forall_forall in H1.
    now destruct (H1 x Ef).
Qed.

Lemma remoteok_wins_shared_urls_witness :
  source (post (enrich (sample_scraped "RemoteOK" "" "" "https://remoteok.com/jobs/1" "0")))
  = "RemoteOK".
Proof.
  apply (remoteok_wins_shared_urls sample_env 2 2 0 0 sample_frame
           (enrich (sample_scraped "RemoteOK" "" "" "https://remoteok.com/jobs/1" "0"))
           (sample_scraped "RemoteOK" "" "" "https://remoteok.com/jobs/1" "1")).
  - vm_compute. reflexivity.
  - vm_compute. left. reflexivity.
  - vm_compute. right. left. reflexivity.
  - reflexivity.
  - reflexivity.
Defined.

(** X22. When both scrapers return no post, the frame of
    [collect_posts] has no column and [clean_posts] raises [KeyError] on
    it; this is the only case in which it does, and otherwise the cleaned
    frame has at least one row. *)
Theorem no_post_no_columns e l1 l2 sent ticks f :
  collect_posts e l1 l2 sent ticks = Returned f ->
  ((exists s1 t1 s2 t2,
       scrape_remoteok e l1 sent ticks = Returned ([], s1, t1) /\
       scrape_remotive e l2 s1 t1 = Returned ([], s2, t2)) <->
   clean_posts_frame f = Failed KeyError) /\
  (clean_posts_frame f = Failed KeyError \/
   exists rows, clean_posts_frame f = Returned rows /\ rows <> []).
Proof.
  intros H. apply collect_posts_parts in H.
  destruct H as (posts1 & posts2 & s1 & t1 & s2 & t2 & E1 & E2 & -> & _).
  split.
  - split.
    + intros (s1' & t1' & s2' & t2' & F1 & F2).
      rewrite E1 in F1. injection F1 as -> <- <-.
      rewrite E2 in F2. injection F2 as -> _ _. reflexivity.
    + intros Hk. exists s1, t1, s2, t2.
      destruct posts1 as [|p1 r1]; [|discriminate Hk].
      destruct posts2 as [|p2 r2]; [|discriminate Hk]. auto.
  - destruct (posts1 ++ posts2)%list as [|p rest] eqn:E; cbn [data_frame clean_posts_frame].
    + left. reflexivity.
    + right. eexists. split; [reflexivity|]. apply clean_posts_not_empty. discriminate.
Qed.

Lemma no_post_no_columns_witness :
  clean_posts_frame NoColumns = Failed KeyError /\
  exists s1 t1 s2 t2,
    scrape_remoteok quiet_env 150 0 0 = Returned ([], s1, t1) /\
    scrape_remotive quiet_env 150 s1 t1 = Returned ([], s2, t2).
Proof.
  destruct (no_post_no_columns quiet_env 150 150 0 0 NoColumns) as [[_ H] _].
  - vm_compute. reflexivity.
  - split; [reflexivity|]. apply H. reflexivity.
Defined.

(** ** The middle of the salary range *)

Module MeanFacts.

Import Round RoundFacts.
Local Open Scope Z_scope.

Lemma shl_align_value m e ez :
  ez <= e ->
  Z.pos (fst (shl_align m e ez)) = Z.pos m * 2 ^ (e - ez).
Proof.
  intros H. unfold shl_align.
  destruct (ez - e) as [|d|d] eqn:E; cbn [fst]; try lia.
  - replace (e - ez) with 0 by lia. change (2 ^ 0) with 1. lia.
  - change (Pos.iter xO m d) with (shift_pos d m).
    rewrite shift_pos_correct. replace (e - ez) with (Z.pos d) by lia.
    change (Z.pow_pos 2 d) with (2 ^ Z.pos d). lia.
Qed.

Lemma normal_digits m : 2 ^ 52 <= Z.pos m < 2 ^ 53 -> Zdigits2 (Z.pos m) = 53.
Proof.
  intros [Hlo Hhi]. apply Z.le_antisymm.
  - apply digits_le; [lia|exact Hhi].
  - apply digits_ge; [lia|exact Hlo].
Qed.

(** Twice a normal number, before it is rounded. *)
Lemma raw_ord_twice m e :
  bounded F64.prec F64.emax m e = true -> 2 ^ 52 <= Z.pos m ->
  raw_ord (Z.pos m) (e + 1) = ord (S754_finite false m e) + 2 ^ 52.
Proof.
  intros Hb Hn. pose proof (bounded_facts m e Hb) as (He & Hm & _).
  unfold raw_ord. rewrite normal_digits by lia. rewrite fexp_eq.
  replace (Z.max (53 + (e + 1) - 53) (-1074)) with (e + 1) by lia.
  replace (e + 1 - (e + 1)) with 0 by lia. rewrite rne_0. cbn [ord]. lia.
Qed.

(** The sum of two normal numbers. *)
Lemma add_normal m1 e1 m2 e2 :
  2 ^ 52 <= Z.pos m1 -> 2 ^ 52 <= Z.pos m2 ->
  let ez := Z.min e1 e2 in
  let M := Z.pos m1 * 2 ^ (e1 - ez) + Z.pos m2 * 2 ^ (e2 - ez) in
  good (F64.add (S754_finite false m1 e1) (S754_finite false m2 e2)) = true /\
  ord (F64.add (S754_finite false m1 e1) (S754_finite false m2 e2)) =
    Z.min ord_inf (raw_ord M ez).
Proof.
  intros H1 H2 ez M. unfold F64.add, SFadd. cbn [cond_Zopp].
  fold ez. rewrite !shl_align_value by (subst ez; lia). fold M.
  assert (P1 : 0 < 2 ^ (e1 - ez)) by (apply Z.pow_pos_nonneg; subst ez; lia).
  assert (P2 : 0 < 2 ^ (e2 - ez)) by (apply Z.pow_pos_nonneg; subst ez; lia).
  assert (HM : 2 ^ 52 <= M) by (subst M; nia).
  destruct M as [|pM|pM] eqn:EM; try (change (2 ^ 52) with 4503599627370496 in HM; lia).
  cbn [binary_normalize]. unfold binary_round.
  pose proof (product_exponent_ok (Z.pos pM) ez HM) as Hexp.
  change (Z.pos (digits2_pos pM)) with (Zdigits2 (Z.pos pM)).
  unfold shl_align.
  destruct (fexp F64.prec F64.emax (Zdigits2 (Z.pos pM) + ez) - ez) eqn:Es; try lia;
    apply round_aux_exact; auto; lia.
Qed.

(** Half of a normal number that is not among the smallest. *)
Lemma div_two m e :
  bounded F64.prec F64.emax m e = true -> 2 ^ 52 <= Z.pos m -> -1072 <= e ->
  good (F64.div (S754_finite false m e) (F64.of_Z 2)) = true /\
  ord (F64.div (S754_finite false m e) (F64.of_Z 2)) = ord (S754_finite false m e) - 2 ^ 52.
Proof.
  intros Hb Hn He. pose proof (bounded_facts m e Hb) as (He' & Hm & _).
  change (F64.of_Z 2) with (S754_finite false 4503599627370496 (-51)).
  unfold F64.div, SFdiv, SFdiv_core_binary. cbn [xorb].
  rewrite normal_digits by lia.
  change (Zdigits2 (Z.pos 4503599627370496)) with 53.
  rewrite fexp_eq.
  replace (Z.min (Z.max (53 + e - (53 + -51) - 53) (-1074)) (e - -51)) with (e - 2) by lia.
  replace (e - -51 - (e - 2)) with 53 by lia.
  rewrite Z.shiftl_mul_pow2 by lia.
  pose proof (Z_div_mod (Z.pos m * 2 ^ 53) (Z.pos 4503599627370496) eq_refl) as Hdm.
  destruct (Z.div_eucl (Z.pos m * 2 ^ 53) (Z.pos 4503599627370496)) as [q r].
  destruct Hdm as [Hdm Hr]. change (2 ^ 53) with 9007199254740992 in Hdm.
  assert (Hq : q = 2 * Z.pos m) by lia. assert (Hr0 : r = 0) by lia. subst q r.
  change (new_location (Z.pos 4503599627370496) 0) with loc_Exact.
  assert (H2m : 2 ^ 52 <= 2 * Z.pos m) by lia.
  pose proof (round_aux_exact (2 * Z.pos m) (e - 2) ltac:(lia)
                (product_exponent_ok _ _ H2m)) as [Hg Ho].
  split; [exact Hg|]. rewrite Ho.
  replace (2 * Z.pos m) with (Z.pos m * 2 ^ 1) by (change (2 ^ 1) with 2; lia).
  replace (e - 2) with (e - 1 - 1) by lia.
  rewrite raw_ord_scale; try lia.
  - unfold raw_ord. rewrite normal_digits by lia. rewrite fexp_eq.
    replace (Z.max (53 + (e - 1) - 53) (-1074)) with (e - 1) by lia.
    rewrite Z.sub_diag, rne_0. cbn [ord]. unfold ord_inf.
    change (2047 * 2 ^ 52) with 9218868437227405312. pow_lits. lia.
  - rewrite normal_digits by lia. rewrite fexp_eq. lia.
Qed.

(** The mean of two normal numbers in increasing order lies between
    them, when their sum does not overflow. *)
Lemma mean_between m1 e1 m2 e2 :
  bounded F64.prec F64.emax m1 e1 = true ->
  bounded F64.prec F64.emax m2 e2 = true ->
  2 ^ 52 <= Z.pos m1 -> 2 ^ 52 <= Z.pos m2 ->
  -1073 <= e1 -> e2 <= 969 ->
  ord (S754_finite false m1 e1) <= ord (S754_finite false m2 e2) ->
  let mid := F64.div (F64.add (S754_finite false m1 e1) (S754_finite false m2 e2))
                     (F64.of_Z 2) in
  good mid = true /\
  ord (S754_finite false m1 e1) <= ord mid <= ord (S754_finite false m2 e2).
Proof.
  intros B1 B2 N1 N2 He1 He2 Hle mid.
  pose proof (bounded_facts m1 e1 B1) as (Hr1 & Hm1 & _).
  pose proof (bounded_facts m2 e2 B2) as (Hr2 & Hm2 & _).
  pose proof (raw_ord_twice m1 e1 B1 N1) as T1.
  pose proof (raw_ord_twice m2 e2 B2 N2) as T2.
  destruct (add_normal m1 e1 m2 e2 N1 N2) as [Gs Os]. cbn zeta in Os.
  cbn [ord] in Hle, T1, T2.
  assert (Hee : e1 <= e2).
  { destruct (Z_le_gt_dec e1 e2) as [H|H]; [exact H|exfalso].
    revert Hle. pow_lits. nia. }
  rewrite (Z.min_l e1 e2 Hee) in Os. rewrite Z.sub_diag in Os.
  change (2 ^ 0) with 1 in Os. rewrite Z.mul_1_r in Os.
  remember (e2 - e1) as d eqn:Ed.
  assert (Hd : 0 <= d) by lia.
  assert (P : 0 < 2 ^ d) by (apply Z.pow_pos_nonneg; lia).
  assert (Hmm : Z.pos m1 <= Z.pos m2 * 2 ^ d).
  { destruct (Z.eq_dec d 0) as [->|Hn].
    - change (2 ^ 0) with 1. assert (e1 = e2) by lia. subst e2. lia.
    - assert (2 ^ 1 <= 2 ^ d) by (apply Z.pow_le_mono_r; lia).
      change (2 ^ 1) with 2 in *. revert Hm1 N2. pow_lits. nia. }
  assert (L : raw_ord (Z.pos m1) (e1 + 1) <= raw_ord (Z.pos m1 + Z.pos m2 * 2 ^ d) e1).
  { replace (raw_ord (Z.pos m1) (e1 + 1)) with (raw_ord (Z.pos m1 * 2 ^ 1) (e1 + 1 - 1)).
    2:{ apply raw_ord_scale; try lia. apply product_exponent_ok. exact N1. }
    replace (e1 + 1 - 1) with e1 by lia. change (2 ^ 1) with 2.
    apply raw_ord_mono; try lia.
    apply product_exponent_ok. lia. }
  assert (U : raw_ord (Z.pos m1 + Z.pos m2 * 2 ^ d) e1 <= raw_ord (Z.pos m2) (e2 + 1)).
  { replace (raw_ord (Z.pos m2) (e2 + 1))
      with (raw_ord (Z.pos m2 * 2 ^ (d + 1)) (e2 + 1 - (d + 1))).
    2:{ apply raw_ord_scale; try lia. apply product_exponent_ok. exact N2. }
    replace (e2 + 1 - (d + 1)) with e1 by lia.
    rewrite Z.pow_add_r by lia. change (2 ^ 1) with 2.
    apply raw_ord_mono; try lia.
    apply product_exponent_ok. lia. }
  assert (Hfin : raw_ord (Z.pos m1 + Z.pos m2 * 2 ^ d) e1 < ord_inf).
  { unfold ord_inf. change (2047 * 2 ^ 52) with 9218868437227405312.
    revert T2 U Hm2. pow_lits. lia. }
  rewrite Z.min_r in Os by lia.
  remember (raw_ord (Z.pos m1 + Z.pos m2 * 2 ^ d) e1) as os eqn:Eos.
  subst mid.
  destruct (F64.add (S754_finite false m1 e1) (S754_finite false m2 e2))
    as [[]|[]| |[] ms es] eqn:Es; cbn [good] in Gs; try discriminate;
    cbn [ord] in Os.
  - exfalso. revert T1 L N1. pow_lits. lia.
  - exfalso. lia.
  - pose proof (bounded_facts ms es Gs) as (Hrs & Hms & Hns).
    assert (Hes : -1072 <= es).
    { revert T1 L N1 Os Hms. pow_lits. lia. }
    destruct (div_two ms es Gs (Hns ltac:(lia)) Hes) as [Gm Om].
    split; [exact Gm|]. rewrite Om. cbn [ord].
    revert T1 T2 L U Os. pow_lits. lia.
Qed.

(** The same for two numbers the plausibility test has let through. *)
Lemma plausible_mean a b :
  good a = true -> good b = true ->
  F64.leb (F64.of_Z 15000) a = true ->
  F64.leb a b = true ->
  F64.leb b (F64.of_Z 700000) = true ->
  let mid := F64.div (F64.add a b) (F64.of_Z 2) in
  good mid = true /\ F64.leb a mid = true /\ F64.leb mid b = true.
Proof.
  intros Ga Gb H1 H2 H3 mid.
  assert (G1 : good (F64.of_Z 15000) = true) by reflexivity.
  assert (G2 : good (F64.of_Z 700000) = true) by reflexivity.
  apply leb_ord in H1; auto. apply leb_ord in H2; auto. apply leb_ord in H3; auto.
  remember (ord (F64.of_Z 15000)) as o1 eqn:E1. vm_compute in E1. subst o1.
  remember (ord (F64.of_Z 700000)) as o2 eqn:E2. vm_compute in E2. subst o2.
  subst mid.
  destruct a as [[]|[]| |[] m1 e1]; cbn [good] in Ga; try discriminate;
    cbn [ord] in H1, H2; try lia.
  { unfold ord_inf in *. change (2047 * 2 ^ 52) with 9218868437227405312 in *.
    destruct b as [[]|[]| |[] m2 e2]; cbn [good] in Gb; try discriminate;
      cbn [ord] in H2, H3; unfold ord_inf in *;
      change (2047 * 2 ^ 52) with 9218868437227405312 in *; lia. }
  destruct b as [[]|[]| |[] m2 e2]; cbn [good] in Gb; try discriminate;
    cbn [ord] in H2, H3; try lia.
  { unfold ord_inf in *. change (2047 * 2 ^ 52) with 9218868437227405312 in *. lia. }
  pose proof (bounded_facts m1 e1 Ga) as (Hr1 & Hm1 & Hn1).
  pose proof (bounded_facts m2 e2 Gb) as (Hr2 & Hm2 & Hn2).
  assert (He1 : -1073 <= e1) by (revert H1 Hm1; pow_lits; lia).
  assert (He2' : -1073 <= e2) by (revert H1 H2 Hm2; pow_lits; lia).
  assert (He2 : e2 <= 969) by (revert H3; pow_lits; lia).
  destruct (mean_between m1 e1 m2 e2 Ga Gb (Hn1 ltac:(lia)) (Hn2 ltac:(lia)) He1 He2)
    as (Gm & Lo & Hi).
  { cbn [ord]. exact H2. }
  split; [exact Gm|]. split; apply leb_ord; auto.
Qed.

End MeanFacts.

Import MeanFacts.

(** X21. In every row of [clean_posts] the three salary columns are
    absent together or present together; when present, the middle lies
    between the two bounds, hence between 15000 and 700000, and it is the
    bound itself when the two bounds are equal. *)
Theorem salary_mid_between_bounds df r :
  In r (clean_posts df) ->
  (salary_min_usd_year r = None /\ salary_max_usd_year r = None /\
   salary_mid_usd_year r = None) \/
  (exists a b m,
      salary_min_usd_year r = Some a /\ salary_max_usd_year r = Some b /\
      salary_mid_usd_year r = Some m /\
      F64.leb a m = true /\ F64.leb m b = true /\
      F64.leb (F64.of_Z 15000) m = true /\
      F64.leb m (F64.of_Z 700000) = true /\
      (a = b -> m = a)).
Proof.
  intros Hin. unfold clean_posts in Hin. apply in_map_iff in Hin.
  destruct Hin as (p & <- & _).
  cbn [enrich salary_min_usd_year salary_max_usd_year salary_mid_usd_year].
  destruct (parse_salary_cases (salary_raw p)) as [[_ Hp]|(_ & txt & _ & Hp)].
  { rewrite Hp. left. auto. }
  destruct (yearly_bounds txt) as [[a b]|] eqn:Eb; [|rewrite Hp; left; auto].
  destruct (yearly_bounds_good _ _ _ Eb) as (Ga & Gb & Hab).
  destruct Hp as [[_ Hp]|[Hi Hp]]; rewrite Hp; [left; auto|right].
  destruct (plausible_range a b Ga Gb Hi) as [Hlo Hhi].
  destruct (plausible_mean a b Ga Gb Hlo Hab Hhi) as (Gm & Lm & Um).
  cbn zeta in Gm, Lm, Um.
  exists a, b, (F64.div (F64.add a b) (F64.of_Z 2)).
  cbn [fst snd row_mean cell_or_zero cell_count]. change (1 + 1)%Z with 2%Z.
  assert (G1 : good (F64.of_Z 15000) = true) by reflexivity.
  assert (G2 : good (F64.of_Z 700000) = true) by reflexivity.
  pose proof (proj1 (leb_ord _ _ G1 Ga) Hlo).
  pose proof (proj1 (leb_ord _ _ Gb G2) Hhi).
  pose proof (proj1 (leb_ord _ _ Ga Gm) Lm).
  pose proof (proj1 (leb_ord _ _ Gm Gb) Um).
  split; [reflexivity|]. split; [reflexivity|]. split; [reflexivity|].
  split; [exact Lm|]. split; [exact Um|].
  split; [apply leb_ord; auto; lia|].
  split; [apply leb_ord; auto; lia|].
  intros ->. apply ord_inj; auto. lia.
Qed.

Lemma salary_mid_between_bounds_witness :
  exists r,
    In r (clean_posts [sample_post "$50,000 - $70,000" "https://x.test/1"]) /\
    exists a b m,
      salary_min_usd_year r = Some a /\ salary_max_usd_year r = Some b /\
      salary_mid_usd_year r = Some m /\
      F64.leb a m = true /\ F64.leb m b = true.
Proof.
  eexists. split; [left; reflexivity|].
  destruct (salary_mid_between_bounds
              [sample_post "$50,000 - $70,000" "https://x.test/1"] _
              (or_introl eq_refl))
    as [(H & _)|(a & b & m & Ha & Hb & Hm & L & U & _)].
  - vm_compute in H. discriminate H.
  - exists a, b, m. auto.
Defined.
